(** * Bedrock usage dashboard: model identity, pricing, aggregation, cost matrix

    A shallow embedding of [bedrock-usage/app.py].  Python [str] values are
    [string]s of 8-bit characters, a character being the code point of that
    number (the ASCII range and Latin-1; the identifiers of the service are
    ASCII), Python [int]s are [Z], Python [float]s are IEEE binary64
    values ([PrimFloat.float]), and a Python [dict] is an insertion-ordered
    association list. *)

From Stdlib Require Import String Ascii List ZArith Bool Lia Arith.
From Stdlib Require Import Permutation Sorted Floats DecimalString.
From Stdlib Require DecimalZ.
Import ListNotations.

Open Scope string_scope.

(* ================================================================== *)
(** ** Python string primitives *)

Module PyStr.

(** [s[n:]] *)
Fixpoint drop (n : nat) (s : string) : string :=
  match n, s with
  | O, _ => s
  | S _, EmptyString => EmptyString
  | S k, String _ s' => drop k s'
  end.

(** [s.startswith(p)] *)
Definition startswith (s p : string) : bool := String.prefix p s.

(** [s.partition(sep)] at the leftmost occurrence of [sep]: the text before
    it and the text after it, [None] when [sep] does not occur.  This is
    what [s.split(sep, 1)] cuts at. *)
Fixpoint partition (sep s : string) : option (string * string) :=
  if String.prefix sep s then Some (EmptyString, drop (String.length sep) s)
  else match s with
       | EmptyString => None
       | String c s' =>
           match partition sep s' with
           | Some (a, b) => Some (String c a, b)
           | None => None
           end
       end.

(** [sub in s] *)
Definition contains (sub s : string) : bool :=
  match partition sub s with Some _ => true | None => false end.

(** [s.split(sep, 1)] *)
Definition split1 (sep s : string) : list string :=
  match partition sep s with
  | Some (a, b) => [a; b]
  | None => [s]
  end.

(** [s.split(sep)[0]] *)
Definition first_segment (sep s : string) : string :=
  match partition sep s with
  | Some (a, _) => a
  | None => s
  end.

(** [x in {...}] for a set of strings *)
Definition mem (x : string) (l : list string) : bool :=
  existsb (String.eqb x) l.

(** [s.replace(old, new)] for a non-empty [old]: leftmost occurrences,
    not overlapping.  [skip] counts the characters of a matched [old]
    that are still to be passed over. *)
Fixpoint replace_from (old new : string) (skip : nat) (s : string) : string :=
  match s with
  | EmptyString => EmptyString
  | String c s' =>
      match skip with
      | S k => replace_from old new k s'
      | O =>
          if String.prefix old s
          then new ++ replace_from old new (String.length old - 1) s'
          else String c (replace_from old new 0 s')
      end
  end.

Definition replace (old new s : string) : string := replace_from old new 0 s.

(** [s.replace(c, d)] for single characters *)
Fixpoint replace_char (c d : ascii) (s : string) : string :=
  match s with
  | EmptyString => EmptyString
  | String x s' => String (if Ascii.eqb x c then d else x) (replace_char c d s')
  end.

Definition is_digit (c : ascii) : bool :=
  (Ascii.leb "0" c && Ascii.leb c "9")%char.

(** [c.isspace()], the white space of [str.split()] and [str.strip()]:
    TAB, LF, VT, FF, CR, FS, GS, RS, US, the space, and NEL (133) and the
    no-break space (160) above the ASCII range. *)
Definition is_space (c : ascii) : bool :=
  let n := nat_of_ascii c in
  ((9 <=? n) && (n <=? 13) || (28 <=? n) && (n <=? 32)
   || (n =? 133) || (n =? 160))%nat.

Definition upper (c : ascii) : ascii :=
  if (Ascii.leb "a" c && Ascii.leb c "z")%char
  then ascii_of_nat (nat_of_ascii c - 32) else c.

Definition lower (c : ascii) : ascii :=
  if (Ascii.leb "A" c && Ascii.leb c "Z")%char
  then ascii_of_nat (nat_of_ascii c + 32) else c.

Fixpoint map_chars (f : ascii -> ascii) (s : string) : string :=
  match s with
  | EmptyString => EmptyString
  | String c s' => String (f c) (map_chars f s')
  end.

(** [w.capitalize()] *)
Definition capitalize (w : string) : string :=
  match w with
  | EmptyString => EmptyString
  | String c w' => String (upper c) (map_chars lower w')
  end.

(** [s.split()]: the maximal runs of characters that are not white space.
    [cur] is the run being read. *)
Fixpoint split_ws_from (cur : string) (s : string) : list string :=
  match s with
  | EmptyString => if String.eqb cur "" then [] else [cur]
  | String c s' =>
      if is_space c
      then (if String.eqb cur "" then split_ws_from "" s'
            else cur :: split_ws_from "" s')
      else split_ws_from (cur ++ String c "") s'
  end.

Definition split_ws (s : string) : list string := split_ws_from "" s.

(** [sep.join(ws)] *)
Definition join (sep : string) (ws : list string) : string :=
  String.concat sep ws.

(** [s.endswith(p)] *)
Definition endswith (s p : string) : bool :=
  let n := String.length s in
  let k := String.length p in
  (k <=? n)%nat && String.eqb (drop (n - k) s) p.

(** *** Facts about [partition] *)

Lemma prefix_split (p s : string) :
  String.prefix p s = true -> s = p ++ drop (String.length p) s.
Proof.
  revert s; induction p as [|c p IH]; intros [|d s]; simpl; try easy.
  destruct (ascii_dec c d) as [->|]; [|easy].
  intros H; f_equal; auto.
Qed.

Lemma partition_Some (sep s a b : string) :
  partition sep s = Some (a, b) -> s = a ++ sep ++ b.
Proof.
  revert a b; induction s as [|c s IH]; intros a b.
  - simpl. destruct sep; simpl; [|discriminate].
    intros [= <- <-]; reflexivity.
  - cbn [partition].
    destruct (String.prefix sep (String c s)) eqn:Hp.
    + intros [= <- <-]. simpl. now apply prefix_split.
    + destruct (partition sep s) as [[a' b']|]; [|discriminate].
      intros [= <- <-]. simpl. f_equal. now apply IH.
Qed.

Lemma length_append (a b : string) :
  String.length (a ++ b) = (String.length a + String.length b)%nat.
Proof. induction a; simpl; auto. Qed.

Lemma partition_length (sep s a b : string) :
  partition sep s = Some (a, b) ->
  String.length s = (String.length a + String.length sep + String.length b)%nat.
Proof.
  intros H. rewrite (partition_Some _ _ _ _ H), !length_append. lia.
Qed.

Lemma prefix_refl (s : string) : String.prefix s s = true.
Proof.
  induction s as [|c s IH]; [reflexivity|].
  cbn [String.prefix]. destruct (ascii_dec c c); [assumption|easy].
Qed.

Lemma contains_refl (s : string) : contains s s = true.
Proof.
  unfold contains. destruct s as [|c s]; [reflexivity|].
  cbn [partition]. now rewrite prefix_refl.
Qed.

End PyStr.

(* ================================================================== *)
(** ** Model identifiers: [strip_model_prefix], [get_model_display_name] *)

Module ModelId.
Import PyStr.

Definition arn_marker : string := ":inference-profile/".

Definition region_prefixes : list string := ["us"; "global"; "eu"; "ap"].

(** The first [if] of [strip_model_prefix]: the text after the leftmost
    [':inference-profile/'] ([model_id.split(marker, 1)[1]]), when the marker
    occurs. *)
Definition strip_arn (model_id : string) : string :=
  match partition arn_marker model_id with
  | Some (_, after) => after
  | None => model_id
  end.

(** The second [if]: [parts = model_id.split('.', 1)]; [parts[1]] is returned
    when [parts[0]] is a region. *)
Definition strip_region (model_id : string) : string :=
  match partition "." model_id with
  | Some (first, rest) => if mem first region_prefixes then rest else model_id
  | None => model_id
  end.

Definition strip_model_prefix (model_id : string) : string :=
  strip_region (strip_arn model_id).

(** An id on which neither [if] of [strip_model_prefix] fires. *)
Definition has_region_prefix (model_id : string) : bool :=
  match partition "." model_id with
  | Some (first, _) => mem first region_prefixes
  | None => false
  end.

Definition is_canonical (model_id : string) : bool :=
  negb (contains arn_marker model_id) && negb (has_region_prefix model_id).

(** *** Regular expressions of [get_model_display_name] *)

Definition newline : string := String (ascii_of_nat 10) "".

(** [n] decimal digits at the head of [s] *)
Fixpoint digits_at (n : nat) (s : string) : bool :=
  match n with
  | O => true
  | S k => match s with
           | String c s' => is_digit c && digits_at k s'
           | EmptyString => false
           end
  end.

(** [-\d{8}] matches at the head of [s] *)
Definition date_at (s : string) : bool :=
  match s with
  | String "-" s' => digits_at 8 s'
  | _ => false
  end.

(** [re.search(r'-\d{8}', s) is not None] *)
Fixpoint search_date (s : string) : bool :=
  date_at s ||
  match s with
  | EmptyString => false
  | String _ s' => search_date s'
  end.

(** What [.*$] leaves of [s] when it matches at its head: [.] is any
    character but the line feed and [$] is the end of the string or the
    position before a line feed that ends the string.  [Some ""] or
    [Some "\n"] is the unmatched rest, [None] is no match. *)
Fixpoint rest_of_line (s : string) : option string :=
  match s with
  | EmptyString => Some EmptyString
  | String c s' =>
      if Ascii.eqb c (ascii_of_nat 10)
      then (if String.eqb s' "" then Some newline else None)
      else rest_of_line s'
  end.

(** [re.sub(r'-\d{8}.*$', '', s)] *)
Fixpoint sub_date (s : string) : string :=
  match s with
  | EmptyString => EmptyString
  | String c s' =>
      if date_at s then
        match rest_of_line (drop 9 s) with
        | Some tail => tail
        | None => String c (sub_date s')
        end
      else String c (sub_date s')
  end.

(** [$] matches at the head of [s] *)
Definition at_end (s : string) : bool :=
  String.eqb s "" || String.eqb s newline.

(** [(-v\d:0|-\d:0)$] matches at the head of [s] *)
Definition version_at (s : string) : bool :=
  match s with
  | String "-" (String "v" (String d (String ":" (String "0" t)))) =>
      is_digit d && at_end t
  | String "-" (String d (String ":" (String "0" t))) =>
      is_digit d && at_end t
  | _ => false
  end.

(** [re.sub(r'(-v\d:0|-\d:0)$', '', s)] *)
Fixpoint sub_version (s : string) : string :=
  match s with
  | EmptyString => EmptyString
  | String c s' =>
      if version_at s then (if endswith s newline then newline else "")
      else String c (sub_version s')
  end.

Definition get_model_display_name (model_id : string) : string :=
  let clean_id := model_id in
  (* Step 1 *)
  let has_extended_thinking := contains "[1m]" clean_id in
  let clean_id :=
    if has_extended_thinking then replace "[1m]" "" clean_id else clean_id in
  (* Step 2 *)
  let clean_id :=
    match partition "." clean_id with
    | Some (_, rest) => rest
    | None => clean_id
    end in
  (* Step 3 *)
  let clean_id := sub_date clean_id in
  (* Step 4 *)
  let clean_id :=
    if negb (search_date model_id) then sub_version clean_id else clean_id in
  (* Step 5 *)
  let display_name := replace_char "_" " " (replace_char "-" " " clean_id) in
  (* Step 6 *)
  let display_name := join " " (map capitalize (split_ws display_name)) in
  (* Step 7 *)
  if has_extended_thinking then display_name ++ " (1m)" else display_name.

(** *** [strip_model_prefix]: fixed points and idempotence *)

Lemma strip_arn_length (m : string) :
  (String.length (strip_arn m) <= String.length m)%nat.
Proof.
  unfold strip_arn. destruct (partition arn_marker m) as [[a b]|] eqn:H; [|lia].
  apply partition_length in H. lia.
Qed.

Lemma strip_arn_shrinks (m : string) :
  contains arn_marker m = true ->
  (String.length (strip_arn m) < String.length m)%nat.
Proof.
  unfold contains, strip_arn.
  destruct (partition arn_marker m) as [[a b]|] eqn:H; [|discriminate].
  intros _. apply partition_length in H. simpl in H. lia.
Qed.

Lemma strip_arn_absent (m : string) :
  contains arn_marker m = false -> strip_arn m = m.
Proof.
  unfold contains, strip_arn.
  now destruct (partition arn_marker m) as [[a b]|].
Qed.

Lemma strip_region_length (m : string) :
  (String.length (strip_region m) <= String.length m)%nat.
Proof.
  unfold strip_region. destruct (partition "." m) as [[a b]|] eqn:H; [|lia].
  destruct (mem a region_prefixes); [|lia].
  apply partition_length in H. lia.
Qed.

Lemma strip_region_shrinks (m : string) :
  has_region_prefix m = true ->
  (String.length (strip_region m) < String.length m)%nat.
Proof.
  unfold has_region_prefix, strip_region.
  destruct (partition "." m) as [[a b]|] eqn:H; [|discriminate].
  intros ->. apply partition_length in H. simpl in H. lia.
Qed.

Lemma strip_region_absent (m : string) :
  has_region_prefix m = false -> strip_region m = m.
Proof.
  unfold has_region_prefix, strip_region.
  destruct (partition "." m) as [[a b]|]; [|easy]. now intros ->.
Qed.

(** Canonicalizing an id that carries neither an ARN marker nor a region
    segment is a no-op. *)
Lemma strip_model_prefix_canonical (m : string) :
  is_canonical m = true -> strip_model_prefix m = m.
Proof.
  unfold is_canonical, strip_model_prefix.
  intros [Ha Hr]%andb_prop.
  apply negb_true_iff in Ha, Hr.
  rewrite (strip_arn_absent _ Ha). now apply strip_region_absent.
Qed.

(** The only fixed points are those ids. *)
Lemma strip_model_prefix_fixed (m : string) :
  strip_model_prefix m = m -> is_canonical m = true.
Proof.
  unfold is_canonical, strip_model_prefix. intros Hfix.
  assert (Hlen : String.length (strip_region (strip_arn m)) = String.length m)
    by now rewrite Hfix.
  destruct (contains arn_marker m) eqn:Ha.
  - pose proof (strip_arn_shrinks _ Ha).
    pose proof (strip_region_length (strip_arn m)). lia.
  - rewrite (strip_arn_absent _ Ha) in Hlen. simpl.
    destruct (has_region_prefix m) eqn:Hr; [|reflexivity].
    pose proof (strip_region_shrinks _ Hr). lia.
Qed.

(** One call never lengthens an id. *)
Lemma strip_model_prefix_length (m : string) :
  (String.length (strip_model_prefix m) <= String.length m)%nat.
Proof.
  unfold strip_model_prefix.
  pose proof (strip_arn_length m).
  pose proof (strip_region_length (strip_arn m)). lia.
Qed.

(** C5, as the spec states it, fails: one call removes one region segment
    only, so an id with two of them needs two calls. *)
Lemma strip_model_prefix_not_idempotent :
  strip_model_prefix "us.us.anthropic.claude-3-haiku-20240307-v1:0"
    = "us.anthropic.claude-3-haiku-20240307-v1:0" /\
  strip_model_prefix (strip_model_prefix "us.us.anthropic.claude-3-haiku-20240307-v1:0")
    = "anthropic.claude-3-haiku-20240307-v1:0" /\
  strip_model_prefix (strip_model_prefix "us.us.anthropic.claude-3-haiku-20240307-v1:0")
    <> strip_model_prefix "us.us.anthropic.claude-3-haiku-20240307-v1:0".
Proof.
  repeat split; try reflexivity.
  vm_compute. discriminate.
Qed.

(** C5 (amended): [strip_model_prefix (strip_model_prefix m)] equals
    [strip_model_prefix m] exactly for the ids [m] whose canonical form
    carries no [':inference-profile/'] marker and no leading region segment
    ([us], [global], [eu], [ap]). *)
Theorem strip_model_prefix_idempotent_iff (m : string) :
  strip_model_prefix (strip_model_prefix m) = strip_model_prefix m
  <-> is_canonical (strip_model_prefix m) = true.
Proof.
  split.
  - apply strip_model_prefix_fixed.
  - apply strip_model_prefix_canonical.
Qed.

Lemma strip_model_prefix_idempotent_witness :
  is_canonical (strip_model_prefix
    "arn:aws:bedrock:us-west-2:405644541454:inference-profile/us.anthropic.claude-sonnet-4-5-20250929-v1:0") = true /\
  strip_model_prefix (strip_model_prefix
    "arn:aws:bedrock:us-west-2:405644541454:inference-profile/us.anthropic.claude-sonnet-4-5-20250929-v1:0")
  = strip_model_prefix
    "arn:aws:bedrock:us-west-2:405644541454:inference-profile/us.anthropic.claude-sonnet-4-5-20250929-v1:0".
Proof.
  split.
  - reflexivity.
  - apply (proj2 (strip_model_prefix_idempotent_iff
      "arn:aws:bedrock:us-west-2:405644541454:inference-profile/us.anthropic.claude-sonnet-4-5-20250929-v1:0")).
    reflexivity.
Defined.

(** The docstring examples of [strip_model_prefix]. *)
Example strip_model_prefix_docstring :
  strip_model_prefix
    "arn:aws:bedrock:us-west-2:405644541454:inference-profile/us.anthropic.claude-sonnet-4-5-20250929-v1:0"
    = "anthropic.claude-sonnet-4-5-20250929-v1:0" /\
  strip_model_prefix "us.anthropic.claude-3-5-sonnet-20241022-v1:0"
    = "anthropic.claude-3-5-sonnet-20241022-v1:0" /\
  strip_model_prefix "global.anthropic.claude-opus-4-1-20250805-v1:0"
    = "anthropic.claude-opus-4-1-20250805-v1:0".
Proof. repeat split. Qed.

(** *** [get_model_display_name] on the ids of the spec *)

(** C6: the code turns every hyphen into a space, the one between the two
    digits of a version included, so the first id of the claim is displayed
    as ["Claude 3 5 Haiku"] (the docstring and the claim say
    ["Claude 3.5 Haiku"]); the second id does end with ["(1m)"]. *)
Theorem get_model_display_name_examples :
  get_model_display_name "anthropic.claude-3-5-haiku-20241022-v1:0"
    = "Claude 3 5 Haiku" /\
  get_model_display_name "anthropic.claude-3-5-haiku-20241022-v1:0"
    <> "Claude 3.5 Haiku" /\
  get_model_display_name "anthropic.claude-sonnet-4-5-20250929-v1:0[1m]"
    = "Claude Sonnet 4 5 (1m)" /\
  endswith
    (get_model_display_name "anthropic.claude-sonnet-4-5-20250929-v1:0[1m]")
    "(1m)" = true.
Proof.
  split; [reflexivity|].
  split; [vm_compute; discriminate|].
  split; reflexivity.
Qed.

End ModelId.

(* ================================================================== *)
(** ** Python floats *)


Module PyFloat.

(** The binary64 value nearest to the rational [num / den] (ties to even):
    the quotient is taken with at least 64 significant bits and a sticky
    bit for the remainder, then rounded once. *)
Definition nearest (num : Z) (den : positive) : spec_float :=
  match num with
  | Z0 => S754_zero false
  | _ =>
      let a := Z.abs num in
      let k := Z.max 0 (Z.log2 (Zpos den) - Z.log2 a + 64) in
      let q := (a * 2 ^ k) / Zpos den in
      let r := (a * 2 ^ k) mod Zpos den in
      let m := if (r =? 0)%Z then 2 * q else 2 * q + 1 in
      binary_normalize prec emax (Z.sgn num * m) (- k - 1) false
  end%Z.

(** [a / b] on two [int]s, [b > 0]: the correctly rounded quotient;
    [None] is the [OverflowError] of a quotient beyond the float range. *)
Definition truediv (a : Z) (b : positive) : option float :=
  match nearest a b with
  | S754_infinity _ => None
  | sf => Some (SF2Prim sf)
  end.

(** The integer nearest to [m * 2^e * 10^ndigits], ties to even. *)
Definition scaled_round_half_even (m : positive) (e : Z) (ndigits : nat) : Z :=
  let n := (Zpos m * 10 ^ Z.of_nat ndigits)%Z in
  match e with
  | Zneg p =>
      let d := (2 ^ Zpos p)%Z in
      let q := (n / d)%Z in
      let r := (n mod d)%Z in
      match (2 * r ?= d)%Z with
      | Lt => q
      | Gt => (q + 1)%Z
      | Eq => if Z.even q then q else (q + 1)%Z
      end
  | _ => (n * 2 ^ e)%Z
  end.

(** [round(x, ndigits)] for [ndigits >= 0]: the exact value of [x] is
    rounded to [ndigits] decimal places, ties to even, and the decimal
    result is read back as the nearest float; zeros, infinities and NaN
    round to themselves and the sign of [x] is kept. *)
Definition round (x : float) (ndigits : nat) : float :=
  match Prim2SF x with
  | S754_finite s m e =>
      let n := scaled_round_half_even m e ndigits in
      if (n =? 0)%Z then (if s then neg_zero else zero)
      else SF2Prim (nearest (if s then (- n)%Z else n)
                            (Z.to_pos (10 ^ Z.of_nat ndigits)))
  | _ => x
  end.

(** [sum(xs)]: the additions from left to right, from the [int] [0].
    (CPython 3.12 and later carry a compensation term along; the two agree
    on the sums evaluated below, whose additions are exact.) *)
Definition sum (xs : list float) : float := fold_left PrimFloat.add xs zero.

(** [x == y] on floats *)
Definition eq (x y : float) : bool := PrimFloat.eqb x y.

End PyFloat.

(* ================================================================== *)
(** ** Python dictionaries *)

(** A [dict] keeps its keys in insertion order: an association list in which
    an assignment to a present key replaces the value where it stands and an
    assignment to a new key appends. *)
Module Dict.

Section Ops.
Context {V : Type}.

Definition t : Type := list (string * V).

Definition empty : t := [].

(** [d[k]], [None] for a [KeyError] *)
Fixpoint get (d : t) (k : string) : option V :=
  match d with
  | [] => None
  | (k', v) :: d' => if String.eqb k k' then Some v else get d' k
  end.

(** [d[k] = v] *)
Fixpoint set (d : t) (k : string) (v : V) : t :=
  match d with
  | [] => [(k, v)]
  | (k', v') :: d' =>
      if String.eqb k k' then (k', v) :: d' else (k', v') :: set d' k v
  end.

(** [k in d] *)
Definition mem (k : string) (d : t) : bool :=
  match get d k with Some _ => true | None => false end.

(** [d.get(k, dflt)], and [d[k]] on a [defaultdict] read before an update *)
Definition get_default (d : t) (k : string) (dflt : V) : V :=
  match get d k with Some v => v | None => dflt end.

Definition keys (d : t) : list string := map fst d.
Definition values (d : t) : list V := map snd d.

(** [{k: v for k, v in d.items() if keep(k)}] *)
Definition filter_keys (keep : string -> bool) (d : t) : t :=
  filter (fun kv => keep (fst kv)) d.

(** [dict(items)]: later items win *)
Definition of_items (items : list (string * V)) : t :=
  fold_left (fun d kv => set d (fst kv) (snd kv)) items empty.

(** [{k: f(v) for k, v in d.items()}] *)
Definition map_values {W : Type} (f : V -> W) (d : t) : list (string * W) :=
  map (fun kv => (fst kv, f (snd kv))) d.

Fixpoint insert_item (kv : string * V) (l : list (string * V)) : list (string * V) :=
  match l with
  | [] => [kv]
  | x :: l' =>
      if String.leb (fst kv) (fst x) then kv :: l else x :: insert_item kv l'
  end.

(** [dict(sorted(d.items()))]: the items by increasing key *)
Definition sorted_items (d : t) : t := fold_right insert_item [] d.

Lemma get_set_eq (d : t) (k : string) (v : V) : get (set d k v) k = Some v.
Proof.
  induction d as [|[k' v'] d IH]; simpl.
  - now rewrite String.eqb_refl.
  - destruct (String.eqb k k') eqn:E; simpl; rewrite E; auto.
Qed.

Lemma get_set_ne (d : t) (k k' : string) (v : V) :
  k <> k' -> get (set d k v) k' = get d k'.
Proof.
  intros Hne. induction d as [|[k0 v0] d IH]; simpl.
  - apply String.eqb_neq in Hne. rewrite String.eqb_sym in Hne. now rewrite Hne.
  - destruct (String.eqb k k0) eqn:E; simpl.
    + apply String.eqb_eq in E; subst k0.
      apply String.eqb_neq in Hne. rewrite String.eqb_sym in Hne. now rewrite Hne.
    + now rewrite IH.
Qed.

Lemma get_default_set_eq (d : t) (k : string) (v dflt : V) :
  get_default (set d k v) k dflt = v.
Proof. unfold get_default. now rewrite get_set_eq. Qed.

Lemma get_default_set_ne (d : t) (k k' : string) (v dflt : V) :
  k <> k' -> get_default (set d k v) k' dflt = get_default d k' dflt.
Proof. intros H. unfold get_default. now rewrite get_set_ne. Qed.

Lemma get_In (d : t) (k : string) (v : V) : get d k = Some v -> In (k, v) d.
Proof.
  induction d as [|[k' v'] d IH]; simpl; [discriminate|].
  destruct (String.eqb k k') eqn:E.
  - apply String.eqb_eq in E; subst. intros [= ->]. now left.
  - intros H. right. auto.
Qed.

Lemma In_get (d : t) (k : string) (v : V) :
  NoDup (keys d) -> In (k, v) d -> get d k = Some v.
Proof.
  induction d as [|[k' v'] d IH]; simpl; [easy|].
  intros Hnd [[= -> ->]|Hin].
  - now rewrite String.eqb_refl.
  - inversion Hnd as [|? ? Hk Hd]; subst.
    destruct (String.eqb k k') eqn:E; [|auto].
    apply String.eqb_eq in E; subst. exfalso. apply Hk.
    change k' with (fst (k', v)). now apply in_map.
Qed.

(** An assignment keeps the keys where they stand and appends a new one. *)
Lemma keys_set (d : t) (k : string) (v : V) :
  keys (set d k v) = if mem k d then keys d else (keys d ++ [k])%list.
Proof.
  unfold keys, mem. induction d as [|[k' v'] d IH]; simpl; [reflexivity|].
  destruct (String.eqb k k') eqn:E; simpl; [reflexivity|].
  rewrite IH. now destruct (get d k).
Qed.

Lemma mem_keys_iff (d : t) (k : string) : mem k d = true <-> In k (keys d).
Proof.
  unfold mem, keys. induction d as [|[k' v'] d IH]; simpl.
  - split; [discriminate|easy].
  - destruct (String.eqb k k') eqn:E.
    + apply String.eqb_eq in E. subst. split; auto.
    + apply String.eqb_neq in E. rewrite IH. split; [auto|].
      intros [H|H]; [congruence|assumption].
Qed.

(** No key comes to stand twice. *)
Lemma set_NoDup (d : t) (k : string) (v : V) :
  NoDup (keys d) -> NoDup (keys (set d k v)).
Proof.
  intros Hnd. rewrite keys_set. destruct (mem k d) eqn:Hm; [assumption|].
  apply NoDup_app; [assumption|repeat constructor; easy|].
  intros x Hx [<-|[]]. apply mem_keys_iff in Hx. congruence.
Qed.

End Ops.

Arguments t : clear implicits.

End Dict.

(* ================================================================== *)
(** ** Pricing: [BEDROCK_PRICING], [get_model_pricing] *)

Module Pricing.
Import PyStr.

#[local] Set Warnings "-inexact-float".
#[local] Open Scope float_scope.

(** A value of [BEDROCK_PRICING]: [{'input': ..., 'output': ...}],
    USD per million tokens. *)
Record PricingEntry : Type := { input : float; output : float }.

Definition BEDROCK_PRICING : Dict.t PricingEntry :=
  [ ("anthropic.claude-sonnet-4-5-20250929-v1:0", {| input := 3.3; output := 16.5 |});
    ("anthropic.claude-sonnet-4-5-20250929-v1:0[1m]", {| input := 6.6; output := 24.75 |});
    ("anthropic.claude-haiku-4-5-20251001-v1:0", {| input := 1.1; output := 5.5 |});
    ("anthropic.claude-sonnet-4-20250514-v1:0", {| input := 3.0; output := 15.0 |});
    ("anthropic.claude-3-5-sonnet-20240620-v1:0", {| input := 3.0; output := 15.0 |});
    ("anthropic.claude-3-5-haiku-20241022-v1:0", {| input := 1.0; output := 5.0 |});
    ("anthropic.claude-3-haiku-20240307-v1:0", {| input := 0.25; output := 1.25 |});
    ("anthropic.claude-opus-4-20250514-v1:0", {| input := 15.0; output := 75.0 |});
    ("anthropic.claude-opus-4-1-20250805-v1:0", {| input := 15.0; output := 75.0 |});
    ("openai.gpt-oss-20b-1:0", {| input := 0.07; output := 0.3 |});
    ("openai.gpt-oss-120b-1:0", {| input := 0.15; output := 0.6 |});
    ("deepseek.deepseek-r1", {| input := 1.35; output := 5.4 |});
    ("deepseek.deepseek-v3.1", {| input := 0.58; output := 1.68 |});
    ("qwen.qwen3-coder-30b-a3b", {| input := 0.15; output := 0.6 |});
    ("qwen.qwen3-32b", {| input := 0.15; output := 0.6 |});
    ("qwen.qwen3-235b-a22b-2507", {| input := 0.22; output := 0.88 |});
    ("qwen.qwen3-coder-480b-a35b", {| input := 0.22; output := 1.8 |});
    ("amazon.nova-micro-v1:0", {| input := 0.035; output := 0.00875 |});
    ("amazon.nova-lite-v1:0", {| input := 0.06; output := 0.015 |});
    ("amazon.nova-pro-v1:0", {| input := 0.8; output := 0.2 |});
    ("amazon.nova-premier-v1:0", {| input := 2.5; output := 0.625 |});
    ("default", {| input := 0.0; output := 0.0 |}) ]%string.

(** No string occurs twice. *)
Fixpoint nodupb (l : list string) : bool :=
  match l with
  | [] => true
  | x :: l' => negb (mem x l') && nodupb l'
  end.

Section Lookup.
Variable table : Dict.t PricingEntry.

(** The loop [for key in table] of [get_model_pricing]: per key, the cleaned
    id is tried in both directions, then the raw id; the first key to match
    decides. *)
Fixpoint partial_match (items : list (string * PricingEntry))
    (clean_model_id model_id : string) : option PricingEntry :=
  match items with
  | [] => None
  | (key, _) :: rest =>
      if contains key clean_model_id || contains clean_model_id key
      then Dict.get table key
      else if contains key model_id || contains model_id key
      then Dict.get table key
      else partial_match rest clean_model_id model_id
  end.

(** [get_model_pricing] over a table; [None] stands for a [KeyError]. *)
Definition lookup_pricing (model_id : string) : option PricingEntry :=
  let clean_model_id := ModelId.strip_model_prefix model_id in
  if Dict.mem clean_model_id table then Dict.get table clean_model_id
  else if Dict.mem model_id table then Dict.get table model_id
  else match partial_match table clean_model_id model_id with
       | Some p => Some p
       | None => Dict.get table "default"%string
       end.

(** The lookup order in the words of the spec: a key is related to an id
    when one is a substring of the other. *)
Definition related (key id : string) : bool :=
  contains key id || contains id key.

Definition first_related_key (clean_model_id model_id : string)
  : option (string * PricingEntry) :=
  find (fun kv => related (fst kv) clean_model_id || related (fst kv) model_id)
       table.

Definition zero_priced : PricingEntry := {| input := 0.0; output := 0.0 |}.

Definition price_spec (model_id : string) : PricingEntry :=
  let canonical := ModelId.strip_model_prefix model_id in
  match Dict.get table canonical with
  | Some p => p
  | None =>
      match Dict.get table model_id with
      | Some p => p
      | None =>
          match first_related_key canonical model_id with
          | Some (_, p) => p
          | None => zero_priced
          end
      end
  end.

End Lookup.

Definition get_model_pricing (model_id : string) : option PricingEntry :=
  lookup_pricing BEDROCK_PRICING model_id.

(** *** The lookup order of [get_model_pricing] *)

Lemma mem_In (x : string) (l : list string) : mem x l = true <-> In x l.
Proof.
  unfold mem. rewrite existsb_exists. split.
  - intros (y & Hy & E). apply String.eqb_eq in E. now subst.
  - intros H. exists x. split; [easy|apply String.eqb_refl].
Qed.

Lemma nodupb_NoDup (l : list string) : nodupb l = true -> NoDup l.
Proof.
  induction l as [|x l IH]; simpl; [constructor|].
  intros [Hx Hl]%andb_prop. constructor; [|auto].
  rewrite <- mem_In. now destruct (mem x l).
Qed.

Section LookupFacts.
Variable table : Dict.t PricingEntry.
Hypothesis table_keys : NoDup (Dict.keys table).

(** Reading [table[key]] inside [for key in table] gives the value that
    stands with the key. *)
Lemma partial_match_find (items : list (string * PricingEntry)) (clean raw : string) :
  incl items table ->
  partial_match table items clean raw
  = option_map snd
      (find (fun kv => related (fst kv) clean || related (fst kv) raw) items).
Proof.
  induction items as [|[key p] items IH]; intros Hincl; [reflexivity|].
  assert (Hget : Dict.get table key = Some p).
  { apply Dict.In_get; [assumption|]. apply Hincl. now left. }
  cbn [partial_match find fst]. unfold related at 1 2.
  destruct (contains key clean || contains clean key); simpl; [assumption|].
  destruct (contains key raw || contains raw key); simpl; [assumption|].
  apply IH. intros x Hx. apply Hincl. now right.
Qed.

Lemma lookup_pricing_spec (model_id : string) :
  Dict.get table "default"%string = Some zero_priced ->
  lookup_pricing table model_id = Some (price_spec table model_id).
Proof.
  intros Hdefault. unfold lookup_pricing, price_spec, Dict.mem, first_related_key.
  destruct (Dict.get table (ModelId.strip_model_prefix model_id)); [reflexivity|].
  destruct (Dict.get table model_id); [reflexivity|].
  rewrite partial_match_find by apply incl_refl.
  destruct (find _ table) as [[k p]|]; simpl; [reflexivity|assumption].
Qed.

(** When nothing matches, the entry under ['default'] is returned. *)
Lemma lookup_pricing_unmatched (model_id : string) :
  Dict.get table (ModelId.strip_model_prefix model_id) = None ->
  Dict.get table model_id = None ->
  (forall key p, In (key, p) table ->
     related key (ModelId.strip_model_prefix model_id) = false /\
     related key model_id = false) ->
  lookup_pricing table model_id = Dict.get table "default"%string.
Proof.
  intros Hc Hr Hnone. unfold lookup_pricing, Dict.mem. rewrite Hc, Hr.
  rewrite partial_match_find by apply incl_refl.
  destruct (find _ table) as [[k p]|] eqn:Hf; [|reflexivity].
  apply find_some in Hf. destruct Hf as [Hin Hrel].
  destruct (Hnone _ _ Hin) as [H1 H2]. simpl in Hrel.
  rewrite H1, H2 in Hrel. discriminate.
Qed.

End LookupFacts.

Lemma BEDROCK_PRICING_keys : NoDup (Dict.keys BEDROCK_PRICING).
Proof. apply nodupb_NoDup. vm_compute. reflexivity. Qed.

(** The lookup always finds an entry. *)
Lemma get_model_pricing_total (model_id : string) :
  exists pricing, get_model_pricing model_id = Some pricing.
Proof.
  exists (price_spec BEDROCK_PRICING model_id).
  apply lookup_pricing_spec; [exact BEDROCK_PRICING_keys|reflexivity].
Qed.

(** A key is related to itself, so an id that no key is related to is no
    key. *)
Lemma unrelated_not_key (table : Dict.t PricingEntry) (a b : string) :
  first_related_key table a b = None ->
  Dict.get table a = None /\ Dict.get table b = None.
Proof.
  unfold first_related_key. intros Hnone.
  assert (Hkey : forall id p, Dict.get table id = Some p ->
                   related id a || related id b = false).
  { intros id p Hg. apply Dict.get_In in Hg. exact (find_none _ _ Hnone _ Hg). }
  split.
  - destruct (Dict.get table a) as [p|] eqn:Hg; [|reflexivity].
    specialize (Hkey _ _ Hg). unfold related in Hkey.
    now rewrite contains_refl in Hkey.
  - destruct (Dict.get table b) as [p|] eqn:Hg; [|reflexivity].
    specialize (Hkey _ _ Hg). unfold related in Hkey.
    rewrite contains_refl in Hkey. simpl in Hkey.
    now rewrite orb_true_r in Hkey.
Qed.

(** A model id that no key is related to is priced at zero. *)
Lemma get_model_pricing_unknown (model_id : string) :
  first_related_key BEDROCK_PRICING (ModelId.strip_model_prefix model_id) model_id = None ->
  get_model_pricing model_id = Some zero_priced.
Proof.
  intros Hnone. unfold get_model_pricing.
  rewrite lookup_pricing_spec; [|exact BEDROCK_PRICING_keys|reflexivity].
  f_equal. unfold price_spec.
  destruct (unrelated_not_key _ _ _ Hnone) as [-> ->]. now rewrite Hnone.
Qed.

(** C7: for every model id, [get_model_pricing] returns an entry and never
    raises; the entry is the one under the canonical id if it is a key, else
    the one under the raw id if it is a key, else the one of the first key, in
    table order, that contains or is contained in the canonical or the raw
    id, else the zero-priced default. *)
Theorem get_model_pricing_lookup_order (model_id : string) :
  get_model_pricing model_id = Some (price_spec BEDROCK_PRICING model_id) /\
  Dict.get BEDROCK_PRICING "default"%string = Some zero_priced /\
  zero_priced = {| input := 0.0; output := 0.0 |}.
Proof.
  split; [|split; reflexivity].
  unfold get_model_pricing.
  apply lookup_pricing_spec.
  - exact BEDROCK_PRICING_keys.
  - reflexivity.
Qed.

Example get_model_pricing_examples :
  get_model_pricing "us.anthropic.claude-3-haiku-20240307-v1:0"
    = Some {| input := 0.25; output := 1.25 |} /\
  get_model_pricing "anthropic.claude-3-haiku" = Some {| input := 0.25; output := 1.25 |} /\
  get_model_pricing "mistral.mixtral-8x7b" = Some zero_priced /\
  get_model_pricing "my-default-model" = Some zero_priced /\
  get_model_pricing "" = Some {| input := 3.3; output := 16.5 |}.
Proof. repeat split. Qed.

End Pricing.

(* ================================================================== *)
(** ** User names: [USER_MAP], [normalize_username] *)

Module UserId.
Import PyStr.

(** Primary user name to the list of its aliases *)
Definition USER_MAP : Dict.t (list string) :=
  [ ("peterdir", ["aider"; "dirkcli"]) ].

Section Normalize.
Variable user_map : Dict.t (list string).

(** [for primary_user, aliases in user_map.items(): if user in aliases:
    return primary_user] *)
Fixpoint find_alias (items : list (string * list string)) (user : string)
  : option string :=
  match items with
  | [] => None
  | (primary_user, aliases) :: rest =>
      if mem user aliases then Some primary_user else find_alias rest user
  end.

(** [user[8:]] when [user] starts with ['bedrock-'] *)
Definition strip_bedrock (raw_user : string) : string :=
  if startswith raw_user "bedrock-" then drop 8 raw_user else raw_user.

Definition normalize_with (raw_user : string) : string :=
  let user := strip_bedrock raw_user in
  if Dict.mem user user_map then user
  else match find_alias user_map user with
       | Some primary_user => primary_user
       | None =>
           if contains ":" user || startswith user "arn" then "Other"
           else user
       end.

(** What the spec says of a stripped name [user] and its canonical name. *)
Inductive resolves (user : string) : string -> Prop :=
| resolves_primary :
    In user (Dict.keys user_map) ->
    resolves user user
| resolves_alias (primary_user : string) (aliases : list string) :
    ~ In user (Dict.keys user_map) ->
    In (primary_user, aliases) user_map ->
    In user aliases ->
    resolves user primary_user
| resolves_other :
    ~ In user (Dict.keys user_map) ->
    (forall primary_user aliases,
        In (primary_user, aliases) user_map -> ~ In user aliases) ->
    contains ":" user = true \/ startswith user "arn" = true ->
    resolves user "Other"
| resolves_self :
    ~ In user (Dict.keys user_map) ->
    (forall primary_user aliases,
        In (primary_user, aliases) user_map -> ~ In user aliases) ->
    contains ":" user = false ->
    startswith user "arn" = false ->
    resolves user user.

End Normalize.

Definition normalize_username (raw_user : string) : string :=
  normalize_with USER_MAP raw_user.

(** The name taken from [identity.arn] in [_process_logs_insights_results] *)
Definition extract_user (user_arn : string) : string :=
  match partition "user/" user_arn with
  | Some (_, after) => first_segment "/" after
  | None =>
      match partition "assumed-role/" user_arn with
      | Some (_, after) => first_segment "/" after
      | None => if contains ":root" user_arn then "root" else user_arn
      end
  end.

(** *** [normalize_username] against the spec *)

Section NormalizeFacts.
Variable user_map : Dict.t (list string).

Lemma mem_keys (k : string) : Dict.mem k user_map = true <-> In k (Dict.keys user_map).
Proof. apply Dict.mem_keys_iff. Qed.

Lemma find_alias_Some (items : list (string * list string)) (user p : string) :
  find_alias items user = Some p ->
  exists aliases, In (p, aliases) items /\ In user aliases.
Proof.
  induction items as [|[q al] items IH]; simpl; [discriminate|].
  destruct (mem user al) eqn:E.
  - intros [= <-]. exists al. split; [now left|].
    unfold mem in E. apply existsb_exists in E. destruct E as (y & Hy & E).
    apply String.eqb_eq in E. now subst.
  - intros H. destruct (IH H) as (aliases & Hin & Hu).
    exists aliases. split; [now right|assumption].
Qed.

Lemma find_alias_None (items : list (string * list string)) (user : string) :
  find_alias items user = None ->
  forall p aliases, In (p, aliases) items -> ~ In user aliases.
Proof.
  induction items as [|[q al] items IH]; simpl; [easy|].
  destruct (mem user al) eqn:E; [discriminate|].
  intros H p aliases [[= -> ->]|Hin].
  - intros Hu. unfold mem in E.
    assert (existsb (String.eqb user) aliases = true); [|congruence].
    apply existsb_exists. exists user. split; [assumption|apply String.eqb_refl].
  - exact (IH H p aliases Hin).
Qed.

Lemma normalize_with_resolves (raw_user : string) :
  resolves user_map (strip_bedrock raw_user) (normalize_with user_map raw_user).
Proof.
  unfold normalize_with. set (user := strip_bedrock raw_user).
  destruct (Dict.mem user user_map) eqn:Hm.
  - apply resolves_primary. now apply mem_keys.
  - assert (Hk : ~ In user (Dict.keys user_map)).
    { rewrite <- mem_keys. now rewrite Hm. }
    destruct (find_alias user_map user) as [p|] eqn:Hf.
    + destruct (find_alias_Some _ _ _ Hf) as (aliases & Hin & Hu).
      now apply resolves_alias with aliases.
    + pose proof (find_alias_None _ _ Hf) as Hnone.
      destruct (contains ":" user) eqn:Hc; simpl.
      * apply resolves_other; auto.
      * destruct (startswith user "arn") eqn:Ha.
        -- apply resolves_other; auto.
        -- now apply resolves_self.
Qed.

End NormalizeFacts.

(** With the alias table of the source a stripped name has one canonical
    name only. *)
Lemma resolves_USER_MAP_functional (user x y : string) :
  resolves USER_MAP user x -> resolves USER_MAP user y -> x = y.
Proof.
  assert (Hone : forall p al, In (p, al) USER_MAP ->
                   p = "peterdir" /\ al = ["aider"; "dirkcli"]).
  { intros p al [[= <- <-]|[]]. now split. }
  intros Hx Hy.
  destruct Hx as [Hk|p al Hk Hin Hu|Hk Hno Hop|Hk Hno Hc Ha];
  destruct Hy as [Hk'|p' al' Hk' Hin' Hu'|Hk' Hno' Hop'|Hk' Hno' Hc' Ha'];
    try reflexivity; try contradiction;
    try (exfalso; eapply Hno; eassumption);
    try (exfalso; eapply Hno'; eassumption).
  - destruct (Hone _ _ Hin) as [-> _]. now destruct (Hone _ _ Hin') as [-> _].
  - exfalso. destruct Hop as [H|H]; congruence.
  - exfalso. destruct Hop' as [H|H]; congruence.
Qed.

(** C8: after the ['bedrock-'] prefix is removed, a primary key is its own
    canonical name, an alias has the primary key it is listed under, and a
    name that is neither and contains [':'] or starts with ['arn'] becomes
    ['Other'] (any other name is kept); with the table
    [{peterdir: [aider, dirkcli]}], ['bedrock-aider'] and ['bedrock-peterdir']
    both give ['peterdir']. *)
Theorem normalize_username_spec :
  normalize_username "bedrock-aider" = "peterdir" /\
  normalize_username "bedrock-peterdir" = "peterdir" /\
  (forall raw_user,
      resolves USER_MAP (strip_bedrock raw_user) (normalize_username raw_user)) /\
  (forall raw_user name,
      resolves USER_MAP (strip_bedrock raw_user) name ->
      normalize_username raw_user = name).
Proof.
  split; [reflexivity|]. split; [reflexivity|]. split.
  - intros raw_user. apply normalize_with_resolves.
  - intros raw_user name H. symmetry.
    apply (resolves_USER_MAP_functional _ _ _ H).
    apply normalize_with_resolves.
Qed.

Lemma normalize_username_spec_witness :
  resolves USER_MAP (strip_bedrock "arn:aws:sts::123456789012:federated") "Other" /\
  normalize_username "arn:aws:sts::123456789012:federated" = "Other".
Proof.
  assert (H : resolves USER_MAP (strip_bedrock "arn:aws:sts::123456789012:federated") "Other").
  { apply resolves_other.
    - simpl. intros [H|[]]. discriminate.
    - intros p al [[= <- <-]|[]]. simpl. intros [H|[H|[]]]; discriminate.
    - left. reflexivity. }
  split; [exact H|].
  exact (proj2 (proj2 (proj2 normalize_username_spec)) _ _ H).
Defined.

Example extract_user_examples :
  extract_user "arn:aws:iam::123456789012:user/bedrock-aider" = "bedrock-aider" /\
  extract_user "arn:aws:sts::123456789012:assumed-role/X/bedrock-aider" = "X" /\
  extract_user "arn:aws:iam::123456789012:root" = "root".
Proof. repeat split. Qed.

End UserId.

(* ================================================================== *)
(** ** Aggregation: [_process_logs_insights_results] *)

Module Aggregation.
#[local] Set Warnings "-inexact-float".
Import PyStr.

#[local] Open Scope float_scope.

(** *** [int(s)] on a string *)

(** The white space that [int] passes over at both ends of a string: TAB,
    LF, VT, FF, CR and the space, and NEL (133) and the no-break space
    (160), which it reads as spaces; not FS, GS, RS, US, which
    [str.split] takes for white space. *)
Definition is_int_space (c : ascii) : bool :=
  let n := nat_of_ascii c in
  ((9 <=? n) && (n <=? 13) || (n =? 32) || (n =? 133) || (n =? 160))%nat.

Fixpoint lstrip (s : string) : string :=
  match s with
  | EmptyString => EmptyString
  | String c s' => if is_int_space c then lstrip s' else s
  end.

Fixpoint rstrip (s : string) : string :=
  match s with
  | EmptyString => EmptyString
  | String c s' =>
      match rstrip s' with
      | EmptyString => if is_int_space c then EmptyString else String c EmptyString
      | r => String c r
      end
  end.

Definition digit_value (c : ascii) : Z := Z.of_nat (nat_of_ascii c - 48).

(** Decimal digits, with single underscores between digits. *)
Fixpoint digits_value (acc : Z) (after_digit : bool) (s : string) : option Z :=
  match s with
  | EmptyString => if after_digit then Some acc else None
  | String c s' =>
      if is_digit c then digits_value (10 * acc + digit_value c) true s'
      else if Ascii.eqb c "_"
           then (if after_digit then digits_value acc false s' else None)
           else None
  end.

(** The number of digits of a literal, leading zeros counted, underscores
    not *)
Fixpoint count_digits (s : string) : nat :=
  match s with
  | EmptyString => 0
  | String c s' => if is_digit c then S (count_digits s') else count_digits s'
  end.

(** [sys.get_int_max_str_digits()], as CPython sets it *)
Definition int_max_str_digits : nat := 4300.

(** The digits after the sign: a literal of more than [int_max_str_digits]
    digits is refused. *)
Definition literal_value (t : string) : option Z :=
  match digits_value 0 false t with
  | Some v => if (count_digits t <=? int_max_str_digits)%nat then Some v else None
  | None => None
  end.

(** [int(s)]: white space around, an optional sign, decimal digits, 4300 of
    them at most; [None] is the [ValueError]. *)
Definition py_int (s : string) : option Z :=
  match rstrip (lstrip s) with
  | String "-" t => option_map Z.opp (literal_value t)
  | String "+" t => literal_value t
  | t => literal_value t
  end.

(** *** The accumulators *)

(** A value of [user_tokens] and [model_tokens] *)
Record Tokens : Type := { tok_input : Z; tok_output : Z }.

Record Acc : Type := {
  user_invocations : Dict.t Z;
  daily_trend : Dict.t Z;
  model_usage : Dict.t Z;
  user_tokens : Dict.t Tokens;
  user_costs : Dict.t float;
  model_tokens : Dict.t Tokens;
  model_costs : Dict.t float;
  model_invocations : Dict.t Z;
  daily_costs : Dict.t float;
  user_daily_costs : Dict.t (Dict.t float);
  user_model_costs : Dict.t (Dict.t float);
  user_model_daily_costs : Dict.t (Dict.t (Dict.t float));
  total_events : Z;
  model_prefix_cache : Dict.t string
}.

Definition init : Acc := {|
  user_invocations := Dict.empty;
  daily_trend := Dict.empty;
  model_usage := Dict.empty;
  user_tokens := Dict.empty;
  user_costs := Dict.empty;
  model_tokens := Dict.empty;
  model_costs := Dict.empty;
  model_invocations := Dict.empty;
  daily_costs := Dict.empty;
  user_daily_costs := Dict.empty;
  user_model_costs := Dict.empty;
  user_model_daily_costs := Dict.empty;
  total_events := 0;
  model_prefix_cache := Dict.empty
|}.

(** [d[k] += n] on a [defaultdict(int)] *)
Definition add_int (d : Dict.t Z) (k : string) (n : Z) : Dict.t Z :=
  Dict.set d k (Dict.get_default d k 0 + n)%Z.

(** [d[k] += c] on a [defaultdict(float)] *)
Definition add_float (d : Dict.t float) (k : string) (c : float) : Dict.t float :=
  Dict.set d k (Dict.get_default d k 0.0 + c).

(** [d[k]['input'] += i; d[k]['output'] += o] on a
    [defaultdict(lambda: {'input': 0, 'output': 0})] *)
Definition add_tokens (d : Dict.t Tokens) (k : string) (i o : Z) : Dict.t Tokens :=
  let t := Dict.get_default d k {| tok_input := 0; tok_output := 0 |} in
  Dict.set d k {| tok_input := tok_input t + i; tok_output := tok_output t + o |}.

(** [d[k1][k2] += c] on a [defaultdict(lambda: defaultdict(float))] *)
Definition add_float2 (d : Dict.t (Dict.t float)) (k1 k2 : string) (c : float)
  : Dict.t (Dict.t float) :=
  Dict.set d k1 (add_float (Dict.get_default d k1 Dict.empty) k2 c).

(** [d[k1][k2][k3] += c] *)
Definition add_float3 (d : Dict.t (Dict.t (Dict.t float))) (k1 k2 k3 : string)
    (c : float) : Dict.t (Dict.t (Dict.t float)) :=
  Dict.set d k1 (add_float2 (Dict.get_default d k1 Dict.empty) k2 k3 c).

(** *** One record *)

(** A row of the query result: its [{'field': ..., 'value': ...}] entries,
    both strings, as the service returns them. *)
Definition LogRecord : Type := list (string * string).

(** [int(fields.get(name, 0))] *)
Definition int_field (fields : Dict.t string) (name : string) : option Z :=
  match Dict.get fields name with
  | None => Some 0%Z
  | Some v => py_int v
  end.

(** What the body of the loop does with a record: it folds it into the
    accumulators, or leaves the loop body by [continue] (directly, or in the
    handler of [KeyError], [ValueError] and [TypeError]), or raises an
    exception that the handler does not catch (the [OverflowError] of
    [int / int]). *)
Inductive outcome : Type :=
| Folded (acc : Acc)
| Skipped (acc : Acc)
| Raised.

Definition million : positive := 1000000.

Definition process_record (acc : Acc) (record : LogRecord) : outcome :=
  let fields := Dict.of_items record in
  let user_arn := Dict.get_default fields "identity.arn" "Unknown"%string in
  let model_id := Dict.get_default fields "modelId" "Unknown"%string in
  let date_day := Dict.get_default fields "date_day" "Unknown"%string in
  if String.eqb user_arn "Unknown" || String.eqb model_id "Unknown"
  then Skipped acc
  else
  match int_field fields "invocations" with
  | None => Skipped acc
  | Some invocations =>
  match int_field fields "total_input_tokens" with
  | None => Skipped acc
  | Some input_tokens =>
  match int_field fields "total_cache_write_tokens" with
  | None => Skipped acc
  | Some cache_write_tokens =>
  match int_field fields "total_output_tokens" with
  | None => Skipped acc
  | Some output_tokens =>
  let total_input_tokens := (input_tokens + cache_write_tokens)%Z in
  let total_output_tokens := output_tokens in
  let raw_user := UserId.extract_user user_arn in
  let user := UserId.normalize_username raw_user in
  let cache :=
    if negb (Dict.mem model_id (model_prefix_cache acc))
    then Dict.set (model_prefix_cache acc) model_id
                  (ModelId.strip_model_prefix model_id)
    else model_prefix_cache acc in
  let cached (a : Acc) : Acc := {|
    user_invocations := user_invocations a;
    daily_trend := daily_trend a;
    model_usage := model_usage a;
    user_tokens := user_tokens a;
    user_costs := user_costs a;
    model_tokens := model_tokens a;
    model_costs := model_costs a;
    model_invocations := model_invocations a;
    daily_costs := daily_costs a;
    user_daily_costs := user_daily_costs a;
    user_model_costs := user_model_costs a;
    user_model_daily_costs := user_model_daily_costs a;
    total_events := total_events a;
    model_prefix_cache := cache |} in
  match Dict.get cache model_id with
  | None => Skipped (cached acc)
  | Some clean_model_id =>
  match Pricing.get_model_pricing model_id with
  | None => Skipped (cached acc)
  | Some pricing =>
  match PyFloat.truediv total_input_tokens million with
  | None => Raised
  | Some input_millions =>
  let input_cost := input_millions * Pricing.input pricing in
  match PyFloat.truediv total_output_tokens million with
  | None => Raised
  | Some output_millions =>
  let output_cost := output_millions * Pricing.output pricing in
  let total_cost := input_cost + output_cost in
  Folded {|
    user_invocations := add_int (user_invocations acc) user invocations;
    model_usage := add_int (model_usage acc) clean_model_id invocations;
    daily_trend := add_int (daily_trend acc) date_day invocations;
    user_tokens :=
      add_tokens (user_tokens acc) user total_input_tokens total_output_tokens;
    user_costs := add_float (user_costs acc) user total_cost;
    model_tokens :=
      add_tokens (model_tokens acc) clean_model_id
                 total_input_tokens total_output_tokens;
    model_costs := add_float (model_costs acc) clean_model_id total_cost;
    model_invocations :=
      add_int (model_invocations acc) clean_model_id invocations;
    daily_costs := add_float (daily_costs acc) date_day total_cost;
    user_model_costs :=
      add_float2 (user_model_costs acc) user clean_model_id total_cost;
    user_model_daily_costs :=
      add_float3 (user_model_daily_costs acc) user clean_model_id date_day
                 total_cost;
    user_daily_costs :=
      add_float2 (user_daily_costs acc) user date_day total_cost;
    total_events := (total_events acc + invocations)%Z;
    model_prefix_cache := cache
  |}
  end end end end end end end end.

(** The loop [for record in records]; [None] when a record raises. *)
Fixpoint process_records (acc : Acc) (records : list LogRecord) : option Acc :=
  match records with
  | [] => Some acc
  | record :: rest =>
      match process_record acc record with
      | Folded acc' => process_records acc' rest
      | Skipped acc' => process_records acc' rest
      | Raised => None
      end
  end.

(** *** After the loop *)

Module Summary.
(** The dictionary returned when there is data (the [date_range] string,
    formatted from the two time stamps, is left out). *)
Record t : Type := {
  user_invocations : Dict.t Z;
  daily_trend : Dict.t Z;
  model_usage : Dict.t Z;
  total_events : Z;
  user_tokens : Dict.t Tokens;
  user_costs : Dict.t float;
  model_tokens : Dict.t Tokens;
  model_costs : Dict.t float;
  model_invocations : Dict.t Z;
  daily_costs : Dict.t float;
  user_daily_costs : Dict.t (Dict.t float);
  user_model_costs : Dict.t (Dict.t float);
  user_model_daily_costs : Dict.t (Dict.t (Dict.t float));
  total_input_tokens : Z;
  total_output_tokens : Z;
  total_cost : float
}.
End Summary.

Inductive result : Type :=
| NoData                       (* the ['error': 'No Bedrock invocation logs found ...'] dictionary *)
| Data (s : Summary.t).

Definition not_unknown (k : string) : bool := negb (String.eqb k "Unknown").

Definition finish (acc : Acc) : result :=
  match user_invocations acc with
  | [] => NoData
  | _ =>
      let user_invocations' := Dict.filter_keys not_unknown (user_invocations acc) in
      let model_usage' := Dict.filter_keys not_unknown (model_usage acc) in
      let user_tokens' := Dict.filter_keys not_unknown (user_tokens acc) in
      let user_costs' := Dict.filter_keys not_unknown (user_costs acc) in
      let model_tokens' := Dict.filter_keys not_unknown (model_tokens acc) in
      let model_costs' := Dict.filter_keys not_unknown (model_costs acc) in
      let model_invocations' := Dict.filter_keys not_unknown (model_invocations acc) in
      let user_daily_costs' := Dict.filter_keys not_unknown (user_daily_costs acc) in
      let user_model_costs' :=
        Dict.map_values (Dict.filter_keys not_unknown)
          (Dict.filter_keys not_unknown (user_model_costs acc)) in
      Data {|
        Summary.user_invocations := user_invocations';
        Summary.daily_trend := Dict.sorted_items (daily_trend acc);
        Summary.model_usage := model_usage';
        Summary.total_events := total_events acc;
        Summary.user_tokens := user_tokens';
        Summary.user_costs := user_costs';
        Summary.model_tokens := model_tokens';
        Summary.model_costs := model_costs';
        Summary.model_invocations := model_invocations';
        Summary.daily_costs := Dict.sorted_items (daily_costs acc);
        Summary.user_daily_costs := Dict.map_values Dict.sorted_items user_daily_costs';
        Summary.user_model_costs := user_model_costs';
        Summary.user_model_daily_costs :=
          Dict.map_values (Dict.map_values Dict.sorted_items)
            (user_model_daily_costs acc);
        Summary.total_input_tokens :=
          fold_left Z.add (map tok_input (Dict.values user_tokens')) 0%Z;
        Summary.total_output_tokens :=
          fold_left Z.add (map tok_output (Dict.values user_tokens')) 0%Z;
        Summary.total_cost := PyFloat.sum (Dict.values user_costs')
      |}
  end.

(** [_process_logs_insights_results(records, start_time, end_time)];
    [None] when a record raises an exception that the loop does not catch. *)
Definition _process_logs_insights_results (records : list LogRecord)
  : option result :=
  option_map finish (process_records init records).

(** Every entry of [model_prefix_cache] holds the stripped form of its key. *)
Definition cache_ok (acc : Acc) : Prop :=
  forall k v, Dict.get (model_prefix_cache acc) k = Some v ->
              v = ModelId.strip_model_prefix k.

(** A record whose fields the loop body can read: identity and model id
    present and not the sentinel, the four counters absent or integer
    literals. *)
Record well_formed (record : LogRecord) (user_arn model_id : string)
    (invocations input_tokens cache_write_tokens output_tokens : Z) : Prop := {
  wf_identity : Dict.get (Dict.of_items record) "identity.arn" = Some user_arn;
  wf_identity_known : user_arn <> "Unknown"%string;
  wf_model : Dict.get (Dict.of_items record) "modelId" = Some model_id;
  wf_model_known : model_id <> "Unknown"%string;
  wf_invocations : int_field (Dict.of_items record) "invocations" = Some invocations;
  wf_input : int_field (Dict.of_items record) "total_input_tokens" = Some input_tokens;
  wf_cache_write :
    int_field (Dict.of_items record) "total_cache_write_tokens" = Some cache_write_tokens;
  wf_output : int_field (Dict.of_items record) "total_output_tokens" = Some output_tokens
}.

(** The two records used as examples below: ten invocations of a Haiku
    model by an alias of [peterdir], and a row without its [invocations]
    field. *)
Definition sample_record : LogRecord :=
  [ ("identity.arn", "arn:aws:iam::123456789012:user/bedrock-aider");
    ("modelId", "us.anthropic.claude-3-haiku-20240307-v1:0");
    ("date_day", "2025-01-01 00:00:00.000");
    ("invocations", "10");
    ("total_input_tokens", "1000");
    ("total_cache_write_tokens", "0");
    ("total_output_tokens", "500") ]%string.

Definition record_without_invocations : LogRecord :=
  [ ("identity.arn", "arn:aws:iam::123456789012:user/alice");
    ("modelId", "anthropic.claude-3-haiku-20240307-v1:0");
    ("date_day", "2025-01-01 00:00:00.000");
    ("total_input_tokens", "1000");
    ("total_cache_write_tokens", "0");
    ("total_output_tokens", "500") ]%string.

Definition record_with_bad_count : LogRecord :=
  [ ("identity.arn", "arn:aws:iam::123456789012:user/alice");
    ("modelId", "anthropic.claude-3-haiku-20240307-v1:0");
    ("date_day", "2025-01-01 00:00:00.000");
    ("invocations", "3");
    ("total_input_tokens", "12.5");
    ("total_cache_write_tokens", "0");
    ("total_output_tokens", "500") ]%string.

Definition record_without_identity : LogRecord :=
  [ ("modelId", "anthropic.claude-3-haiku-20240307-v1:0");
    ("date_day", "2025-01-01 00:00:00.000");
    ("invocations", "3");
    ("total_input_tokens", "1000");
    ("total_cache_write_tokens", "0");
    ("total_output_tokens", "500") ]%string.

(** [d[k]] as an update of a [defaultdict(float)] reads it *)
Definition cost_at (d : Dict.t float) (k : string) : float :=
  Dict.get_default d k 0.0.

Definition cost_at2 (d : Dict.t (Dict.t float)) (k1 k2 : string) : float :=
  cost_at (Dict.get_default d k1 Dict.empty) k2.

Definition cost_at3 (d : Dict.t (Dict.t (Dict.t float))) (k1 k2 k3 : string) : float :=
  cost_at2 (Dict.get_default d k1 Dict.empty) k2 k3.

(** A numeric field that is present and is not an integer literal. *)
Definition non_numeric (record : LogRecord) : Prop :=
  exists name v,
    In name ["invocations"; "total_input_tokens";
             "total_cache_write_tokens"; "total_output_tokens"]%string /\
    Dict.get (Dict.of_items record) name = Some v /\
    py_int v = None.

(** The identity or the model id is absent, so it reads as ['Unknown']. *)
Definition lacks_identity_or_model (record : LogRecord) : Prop :=
  Dict.get (Dict.of_items record) "identity.arn" = None \/
  Dict.get (Dict.of_items record) "modelId" = None.

(** *** Reading the updated accumulators *)

Lemma cost_at_add_float (d : Dict.t float) (k : string) (c : float) :
  cost_at (add_float d k c) k = cost_at d k + c.
Proof. unfold cost_at, add_float. now rewrite Dict.get_default_set_eq. Qed.

Lemma cost_at2_add_float2 (d : Dict.t (Dict.t float)) (k1 k2 : string) (c : float) :
  cost_at2 (add_float2 d k1 k2 c) k1 k2 = cost_at2 d k1 k2 + c.
Proof.
  unfold cost_at2, add_float2. rewrite Dict.get_default_set_eq.
  apply cost_at_add_float.
Qed.

Lemma cost_at3_add_float3 (d : Dict.t (Dict.t (Dict.t float)))
    (k1 k2 k3 : string) (c : float) :
  cost_at3 (add_float3 d k1 k2 k3 c) k1 k2 k3 = cost_at3 d k1 k2 k3 + c.
Proof.
  unfold cost_at3, add_float3. rewrite Dict.get_default_set_eq.
  apply cost_at2_add_float2.
Qed.

Lemma get_default_present {V : Type} (d : Dict.t V) (k : string) (v dflt : V) :
  Dict.get d k = Some v -> Dict.get_default d k dflt = v.
Proof. unfold Dict.get_default. now intros ->. Qed.

Lemma get_default_absent {V : Type} (d : Dict.t V) (k : string) (dflt : V) :
  Dict.get d k = None -> Dict.get_default d k dflt = dflt.
Proof. unfold Dict.get_default. now intros ->. Qed.

(** *** The cache of stripped model ids *)

Lemma cache_ok_init : cache_ok init.
Proof. intros k v. discriminate. Qed.

Lemma cache_step_ok (cache : Dict.t string) (model_id : string) :
  (forall k v, Dict.get cache k = Some v -> v = ModelId.strip_model_prefix k) ->
  let cache' :=
    if negb (Dict.mem model_id cache)
    then Dict.set cache model_id (ModelId.strip_model_prefix model_id)
    else cache in
  (forall k v, Dict.get cache' k = Some v -> v = ModelId.strip_model_prefix k) /\
  Dict.get cache' model_id = Some (ModelId.strip_model_prefix model_id).
Proof.
  intros Hok. unfold Dict.mem. cbv zeta.
  destruct (Dict.get cache model_id) as [v|] eqn:Hg; simpl.
  - split; [exact Hok|]. rewrite Hg. f_equal. now apply Hok.
  - split; [|apply Dict.get_set_eq].
    intros k v. destruct (string_dec model_id k) as [<-|Hne].
    + rewrite Dict.get_set_eq. now intros [= <-].
    + rewrite Dict.get_set_ne by assumption. apply Hok.
Qed.

Lemma process_record_cache_ok (acc : Acc) (record : LogRecord) :
  cache_ok acc ->
  match process_record acc record with
  | Folded acc' | Skipped acc' => cache_ok acc'
  | Raised => True
  end.
Proof.
  intros Hok. unfold process_record.
  destruct (_ || _); [exact Hok|].
  destruct (int_field _ "invocations"); [|exact Hok].
  destruct (int_field _ "total_input_tokens"); [|exact Hok].
  destruct (int_field _ "total_cache_write_tokens"); [|exact Hok].
  destruct (int_field _ "total_output_tokens"); [|exact Hok].
  cbv zeta.
  destruct (cache_step_ok (model_prefix_cache acc)
              (Dict.get_default (Dict.of_items record) "modelId" "Unknown"%string) Hok)
    as [Hok' Hget].
  rewrite Hget.
  destruct (Pricing.get_model_pricing _); [|exact Hok'].
  destruct (PyFloat.truediv _ _); [|exact I].
  destruct (PyFloat.truediv _ _); [|exact I].
  exact Hok'.
Qed.

Lemma process_records_cache_ok (records : list LogRecord) (acc acc' : Acc) :
  cache_ok acc -> process_records acc records = Some acc' -> cache_ok acc'.
Proof.
  revert acc. induction records as [|r rs IH]; intros acc Hok; simpl.
  - now intros [= <-].
  - pose proof (process_record_cache_ok acc r Hok) as Hstep.
    destruct (process_record acc r); [eauto|eauto|discriminate].
Qed.

(** *** Records that the loop passes over *)

Lemma lacks_reads_unknown (record : LogRecord) :
  lacks_identity_or_model record ->
  String.eqb (Dict.get_default (Dict.of_items record) "identity.arn" "Unknown") "Unknown"
  || String.eqb (Dict.get_default (Dict.of_items record) "modelId" "Unknown") "Unknown"
  = true.
Proof.
  intros [H|H]; rewrite (get_default_absent _ _ _ H); simpl.
  - reflexivity.
  - apply orb_true_r.
Qed.

Lemma process_record_unknown (acc : Acc) (record : LogRecord) :
  lacks_identity_or_model record -> process_record acc record = Skipped acc.
Proof.
  intros H. unfold process_record. now rewrite (lacks_reads_unknown _ H).
Qed.

Lemma int_field_non_numeric (fields : Dict.t string) (name v : string) :
  Dict.get fields name = Some v -> py_int v = None -> int_field fields name = None.
Proof. unfold int_field. now intros -> ->. Qed.

Lemma process_record_non_numeric (acc : Acc) (record : LogRecord) :
  non_numeric record -> process_record acc record = Skipped acc.
Proof.
  intros (name & v & Hname & Hget & Hint).
  pose proof (int_field_non_numeric _ _ _ Hget Hint) as Hnone.
  unfold process_record.
  destruct (_ || _); [reflexivity|].
  simpl in Hname.
  destruct Hname as [<-|[<-|[<-|[<-|[]]]]].
  - now rewrite Hnone.
  - destruct (int_field _ "invocations"); [|reflexivity]. now rewrite Hnone.
  - destruct (int_field _ "invocations"); [|reflexivity].
    destruct (int_field _ "total_input_tokens"); [|reflexivity].
    now rewrite Hnone.
  - destruct (int_field _ "invocations"); [|reflexivity].
    destruct (int_field _ "total_input_tokens"); [|reflexivity].
    destruct (int_field _ "total_cache_write_tokens"); [|reflexivity].
    now rewrite Hnone.
Qed.

(** A record that every accumulator state passes over can be taken out of
    the input. *)
Lemma process_records_skip (record : LogRecord) (before after : list LogRecord) :
  (forall acc, process_record acc record = Skipped acc) ->
  forall acc,
    process_records acc (before ++ record :: after)
    = process_records acc (before ++ after).
Proof.
  intros Hskip. induction before as [|r rs IH]; intros acc; simpl.
  - now rewrite Hskip.
  - destruct (process_record acc r); auto.
Qed.

(** *** The claims on the aggregation *)

(** C3: a well-formed record, whose token counts in millions are within the
    float range, is folded, and what it adds to the per-user, per-model,
    per-day, per-user-per-model, per-user-per-model-per-day (and
    per-user-per-day) costs is
    [(input_tokens + cache_write_tokens) / 1_000_000 * pricing['input']
     + output_tokens / 1_000_000 * pricing['output']],
    with [pricing = get_model_pricing(model_id)]. *)
Theorem record_cost_folded (acc : Acc) (record : LogRecord)
    (user_arn model_id : string)
    (invocations input_tokens cache_write_tokens output_tokens : Z)
    (input_millions output_millions : float) :
  cache_ok acc ->
  well_formed record user_arn model_id
              invocations input_tokens cache_write_tokens output_tokens ->
  PyFloat.truediv (input_tokens + cache_write_tokens) million = Some input_millions ->
  PyFloat.truediv output_tokens million = Some output_millions ->
  let user := UserId.normalize_username (UserId.extract_user user_arn) in
  let model := ModelId.strip_model_prefix model_id in
  let day := Dict.get_default (Dict.of_items record) "date_day" "Unknown"%string in
  exists pricing acc',
    Pricing.get_model_pricing model_id = Some pricing /\
    process_record acc record = Folded acc' /\
    let cost := input_millions * Pricing.input pricing
                + output_millions * Pricing.output pricing in
    cost_at (user_costs acc') user = cost_at (user_costs acc) user + cost /\
    cost_at (model_costs acc') model = cost_at (model_costs acc) model + cost /\
    cost_at (daily_costs acc') day = cost_at (daily_costs acc) day + cost /\
    cost_at2 (user_model_costs acc') user model
      = cost_at2 (user_model_costs acc) user model + cost /\
    cost_at3 (user_model_daily_costs acc') user model day
      = cost_at3 (user_model_daily_costs acc) user model day + cost /\
    cost_at2 (user_daily_costs acc') user day
      = cost_at2 (user_daily_costs acc) user day + cost.
Proof.
  intros Hok [Hid Hidk Hmod Hmodk Hinv Hin Hcw Hout] Hqi Hqo user model day.
  destruct (Pricing.get_model_pricing_total model_id) as [pricing Hpricing].
  exists pricing.
  unfold process_record.
  rewrite (get_default_present _ _ _ "Unknown"%string Hid).
  rewrite (get_default_present _ _ _ "Unknown"%string Hmod).
  apply String.eqb_neq in Hidk, Hmodk. rewrite Hidk, Hmodk. cbn [orb].
  rewrite Hinv, Hin, Hcw, Hout. cbv zeta.
  destruct (cache_step_ok (model_prefix_cache acc) model_id Hok) as [_ Hget].
  rewrite Hget, Hpricing, Hqi, Hqo.
  eexists. split; [reflexivity|]. split; [reflexivity|].
  cbn [user_costs model_costs daily_costs user_model_costs
       user_model_daily_costs user_daily_costs].
  fold user model day.
  rewrite !cost_at_add_float, !cost_at2_add_float2, cost_at3_add_float3.
  repeat split.
Qed.

Lemma record_cost_folded_witness :
  exists pricing acc',
    Pricing.get_model_pricing "us.anthropic.claude-3-haiku-20240307-v1:0" = Some pricing /\
    process_record init sample_record = Folded acc' /\
    let cost := 0.001 * Pricing.input pricing + 0.0005 * Pricing.output pricing in
    cost_at (user_costs acc') "peterdir" = cost_at (user_costs init) "peterdir" + cost /\
    cost_at (model_costs acc') "anthropic.claude-3-haiku-20240307-v1:0"
      = cost_at (model_costs init) "anthropic.claude-3-haiku-20240307-v1:0" + cost /\
    cost_at (daily_costs acc') "2025-01-01 00:00:00.000"
      = cost_at (daily_costs init) "2025-01-01 00:00:00.000" + cost /\
    cost_at2 (user_model_costs acc') "peterdir" "anthropic.claude-3-haiku-20240307-v1:0"
      = cost_at2 (user_model_costs init) "peterdir" "anthropic.claude-3-haiku-20240307-v1:0" + cost /\
    cost_at3 (user_model_daily_costs acc') "peterdir"
             "anthropic.claude-3-haiku-20240307-v1:0" "2025-01-01 00:00:00.000"
      = cost_at3 (user_model_daily_costs init) "peterdir"
                 "anthropic.claude-3-haiku-20240307-v1:0" "2025-01-01 00:00:00.000" + cost /\
    cost_at2 (user_daily_costs acc') "peterdir" "2025-01-01 00:00:00.000"
      = cost_at2 (user_daily_costs init) "peterdir" "2025-01-01 00:00:00.000" + cost.
Proof.
  apply (record_cost_folded init sample_record
           "arn:aws:iam::123456789012:user/bedrock-aider"
           "us.anthropic.claude-3-haiku-20240307-v1:0"
           10 1000 0 500 0.001 0.0005).
  - exact cache_ok_init.
  - constructor; try reflexivity; discriminate.
  - reflexivity.
  - reflexivity.
Defined.

(** The scenario of the spec, with the alias taken from a [user/] path. *)
Example sample_record_aggregates :
  exists s, _process_logs_insights_results [sample_record] = Some (Data s) /\
    Summary.user_invocations s = [("peterdir"%string, 10%Z)] /\
    Summary.model_usage s = [("anthropic.claude-3-haiku-20240307-v1:0"%string, 10%Z)] /\
    Summary.total_cost s = 0.000875.
Proof. eexists. split; [vm_compute; reflexivity|]. repeat split. Qed.

(** C10: a record without identity or without model id is passed over
    before anything is accumulated: the accumulators, [total_events]
    included, stay as they are, and the result of the pass is the one
    without the record. *)
Theorem unknown_record_contributes_nothing (record : LogRecord) :
  lacks_identity_or_model record ->
  (forall acc, process_record acc record = Skipped acc) /\
  (forall before after,
      _process_logs_insights_results (before ++ record :: after)
      = _process_logs_insights_results (before ++ after)).
Proof.
  intros Hlacks.
  assert (Hskip : forall acc, process_record acc record = Skipped acc)
    by (intros acc; now apply process_record_unknown).
  split; [exact Hskip|].
  intros before after. unfold _process_logs_insights_results.
  now rewrite process_records_skip.
Qed.

Lemma unknown_record_contributes_nothing_witness :
  lacks_identity_or_model record_without_identity /\
  (forall acc, process_record acc record_without_identity = Skipped acc) /\
  (forall before after,
      _process_logs_insights_results (before ++ record_without_identity :: after)
      = _process_logs_insights_results (before ++ after)).
Proof.
  assert (H : lacks_identity_or_model record_without_identity)
    by (left; reflexivity).
  split; [exact H|].
  exact (unknown_record_contributes_nothing record_without_identity H).
Defined.

(** C9, as the spec states it, fails for a missing counter:
    [int(fields.get('invocations', 0))] reads an absent field as [0], and
    the record is folded, not skipped. *)
Lemma missing_counter_not_skipped :
  Dict.get (Dict.of_items record_without_invocations) "invocations" = None /\
  (exists acc',
      process_record init record_without_invocations = Folded acc' /\
      user_invocations acc' = [("alice"%string, 0%Z)] /\
      user_costs acc' = [("alice"%string, 0.000875)]) /\
  _process_logs_insights_results ([] ++ record_without_invocations :: [])
  <> _process_logs_insights_results ([] ++ []).
Proof.
  split; [reflexivity|]. split.
  - eexists. split; [vm_compute; reflexivity|]. split; reflexivity.
  - vm_compute. discriminate.
Qed.

(** An absent counter is read as [0]. *)
Lemma int_field_absent (fields : Dict.t string) (name : string) :
  Dict.get fields name = None -> int_field fields name = Some 0%Z.
Proof. unfold int_field. now intros ->. Qed.

(** C9 (amended): a record in which a counter is present and is not an
    integer literal, or which has no identity or no model id, is skipped on
    its own: no accumulator changes, and the result of the pass is the one
    without the record.  A counter that is absent is no reason to skip: it
    is read as [0]. *)
Theorem malformed_record_skipped (record : LogRecord) :
  (non_numeric record \/ lacks_identity_or_model record ->
   (forall acc, process_record acc record = Skipped acc) /\
   (forall before after,
       _process_logs_insights_results (before ++ record :: after)
       = _process_logs_insights_results (before ++ after))) /\
  (forall name,
      Dict.get (Dict.of_items record) name = None ->
      int_field (Dict.of_items record) name = Some 0%Z).
Proof.
  split; [|intros name; apply int_field_absent].
  intros Hbad.
  assert (Hskip : forall acc, process_record acc record = Skipped acc).
  { intros acc. destruct Hbad as [Hnum|Hlacks].
    - now apply process_record_non_numeric.
    - now apply process_record_unknown. }
  split; [exact Hskip|].
  intros before after. unfold _process_logs_insights_results.
  f_equal. now apply process_records_skip.
Qed.

Lemma malformed_record_skipped_witness :
  non_numeric record_with_bad_count /\
  (forall acc, process_record acc record_with_bad_count = Skipped acc) /\
  (forall before after,
      _process_logs_insights_results (before ++ record_with_bad_count :: after)
      = _process_logs_insights_results (before ++ after)) /\
  Dict.get (Dict.of_items record_without_invocations) "invocations" = None /\
  int_field (Dict.of_items record_without_invocations) "invocations" = Some 0%Z.
Proof.
  assert (H : non_numeric record_with_bad_count).
  { exists "total_input_tokens"%string, "12.5"%string.
    split; [simpl; tauto|]. split; reflexivity. }
  split; [exact H|].
  destruct (proj1 (malformed_record_skipped record_with_bad_count) (or_introl H))
    as [Hskip Hpass].
  split; [exact Hskip|]. split; [exact Hpass|].
  split; [reflexivity|].
  apply (proj2 (malformed_record_skipped record_without_invocations)).
  reflexivity.
Defined.

End Aggregation.

(* ================================================================== *)
(** ** The cost matrix: [cost_matrix_api] *)

Module CostMatrix.
#[local] Set Warnings "-inexact-float".
#[local] Open Scope float_scope.

(** [sorted(l)] on strings *)
Fixpoint insert_sorted (x : string) (l : list string) : list string :=
  match l with
  | [] => [x]
  | y :: l' => if String.leb x y then x :: l else y :: insert_sorted x l'
  end.

Definition sorted (l : list string) : list string :=
  fold_right insert_sorted [] l.

(** The order of [sorted] *)
Definition string_le (a b : string) : Prop := String.leb a b = true.

(** [sorted(set(l))] *)
Definition sorted_set (l : list string) : list string :=
  sorted (nodup string_dec l).

(** [enumerate(l)] *)
Definition enumerate {A : Type} (l : list A) : list (nat * A) :=
  combine (seq 0 (length l)) l.

(** The [matrix] dictionary of the response (its [date_range] is left out). *)
Record Matrix : Type := {
  users : list string;
  models : list string;
  model_display_names : Dict.t string;
  data : list (list float);
  user_totals : Dict.t float;
  model_totals : Dict.t float;
  total_cost : float
}.

Section Build.
Variable user_model_costs : Dict.t (Dict.t float).

(** [user_model_costs.get(user, {}).get(model, 0)]; the [int] [0] of a
    missing entry, equal to the float [0.0], is that float here *)
Definition cell_cost (user model : string) : float :=
  Dict.get_default (Dict.get_default user_model_costs user Dict.empty) model 0.0.

(** The inner loop [for model in all_models], from [row = []] and
    [user_total = 0]. *)
Definition fill_row (all_models : list string) (user : string)
  : list float * float :=
  fold_left
    (fun '(row, user_total) model =>
       let cost := cell_cost user model in
       ((row ++ [PyFloat.round cost 4])%list, user_total + cost))
    all_models ([], 0.0).

(** The loop [for user in all_users], from [data = []] and
    [user_totals = {}]. *)
Definition fill_rows (all_users all_models : list string)
  : list (list float) * Dict.t float :=
  fold_left
    (fun '(data, user_totals) user =>
       let '(row, user_total) := fill_row all_models user in
       ((data ++ [row])%list,
        Dict.set user_totals user (PyFloat.round user_total 4)))
    all_users ([], Dict.empty).

(** [sum(data[user_idx][model_idx] for user_idx in range(n_users))] *)
Definition column_sum (data : list (list float)) (n_users model_idx : nat) : float :=
  PyFloat.sum
    (map (fun user_idx => nth model_idx (nth user_idx data []) 0.0)
         (seq 0 n_users)).

(** The loop [for model_idx, model in enumerate(all_models)] *)
Definition fill_model_totals (data : list (list float)) (n_users : nat)
    (all_models : list string) : Dict.t float :=
  fold_left
    (fun model_totals '(model_idx, model) =>
       Dict.set model_totals model
                (PyFloat.round (column_sum data n_users model_idx) 4))
    (enumerate all_models) Dict.empty.

(** The body of [cost_matrix_api] once [data] is fetched and carries no
    ['error']: [user_model_costs] and [total_cost] are read from it. *)
Definition cost_matrix (total : float) : Matrix :=
  let all_users := sorted (Dict.keys user_model_costs) in
  let all_models :=
    sorted_set (flat_map (fun user_costs => Dict.keys user_costs)
                         (Dict.values user_model_costs)) in
  let '(data, user_totals) := fill_rows all_users all_models in
  {| users := all_users;
     models := all_models;
     model_display_names :=
       Dict.of_items
         (map (fun model => (model, ModelId.get_model_display_name model))
              all_models);
     data := data;
     user_totals := user_totals;
     model_totals := fill_model_totals data (length all_users) all_models;
     total_cost := total |}.

(** The row of a user and the total of a user, as functions of the user *)
Definition row_of (all_models : list string) (user : string) : list float :=
  map (fun model => PyFloat.round (cell_cost user model) 4) all_models.

Definition user_total_of (all_models : list string) (user : string) : float :=
  PyFloat.round
    (fold_left (fun t model => t + cell_cost user model) all_models 0.0) 4.

End Build.

(** C1 in the words of the claim: each row of cells sums to the user total,
    each column of cells sums, after rounding to 4 places, to the model
    total, and all cells sum to [total_cost] within [1e-4]. *)
Definition sums_match (m : Matrix) : Prop :=
  (forall i user,
      nth_error (users m) i = Some user ->
      exists total,
        Dict.get (user_totals m) user = Some total /\
        PyFloat.eq (PyFloat.sum (nth i (data m) [])) total = true) /\
  (forall j model,
      nth_error (models m) j = Some model ->
      exists total,
        Dict.get (model_totals m) model = Some total /\
        PyFloat.eq
          (PyFloat.round
             (PyFloat.sum (map (fun row => nth j row 0.0) (data m))) 4)
          total = true) /\
  PrimFloat.leb
    (PrimFloat.abs (PyFloat.sum (concat (data m)) - total_cost m)) 0.0001
  = true.

(** Three rows of small usage by one user: 160, 40 and 50 input tokens of
    three models, four hundredths of a thousandth of a dollar each. *)
Definition tiny_usage : list Aggregation.LogRecord :=
  [ [ ("identity.arn", "arn:aws:iam::123456789012:user/alice");
      ("modelId", "anthropic.claude-3-haiku-20240307-v1:0");
      ("date_day", "2025-01-01 00:00:00.000");
      ("invocations", "1");
      ("total_input_tokens", "160");
      ("total_cache_write_tokens", "0");
      ("total_output_tokens", "0") ];
    [ ("identity.arn", "arn:aws:iam::123456789012:user/alice");
      ("modelId", "anthropic.claude-3-5-haiku-20241022-v1:0");
      ("date_day", "2025-01-01 00:00:00.000");
      ("invocations", "1");
      ("total_input_tokens", "40");
      ("total_cache_write_tokens", "0");
      ("total_output_tokens", "0") ];
    [ ("identity.arn", "arn:aws:iam::123456789012:user/alice");
      ("modelId", "amazon.nova-pro-v1:0");
      ("date_day", "2025-01-01 00:00:00.000");
      ("invocations", "1");
      ("total_input_tokens", "50");
      ("total_cache_write_tokens", "0");
      ("total_output_tokens", "0") ] ]%string.

Definition two_cells : Dict.t (Dict.t float) :=
  [ ("alice", [ ("model-a", 0.00004); ("model-b", 0.00004) ]) ]%string.

(** *** Sorting keeps the elements *)

Lemma insert_sorted_perm (x : string) (l : list string) :
  Permutation (insert_sorted x l) (x :: l).
Proof.
  induction l as [|y l IH]; simpl; [reflexivity|].
  destruct (String.leb x y); [reflexivity|].
  rewrite IH. apply perm_swap.
Qed.

Lemma sorted_perm (l : list string) : Permutation (sorted l) l.
Proof.
  induction l as [|x l IH]; simpl; [reflexivity|].
  rewrite insert_sorted_perm. now constructor.
Qed.

Lemma sorted_set_NoDup (l : list string) : NoDup (sorted_set l).
Proof.
  unfold sorted_set.
  apply (Permutation_NoDup (Permutation_sym (sorted_perm _))).
  apply NoDup_nodup.
Qed.

(** The result is in increasing order. *)

Lemma insert_sorted_HdRel (a x : string) (l : list string) :
  HdRel string_le a l -> string_le a x -> HdRel string_le a (insert_sorted x l).
Proof.
  intros Hl Hx. destruct l as [|y l]; simpl; [now constructor|].
  destruct (String.leb x y); constructor; [assumption|].
  now inversion Hl.
Qed.

Lemma insert_sorted_Sorted (x : string) (l : list string) :
  Sorted string_le l -> Sorted string_le (insert_sorted x l).
Proof.
  induction 1 as [|y l Hl IH Hy]; simpl.
  - repeat constructor.
  - destruct (String.leb x y) eqn:E.
    + constructor; [now constructor|]. now constructor.
    + constructor; [assumption|].
      apply insert_sorted_HdRel; [assumption|].
      unfold string_le. destruct (String.leb_total x y) as [H|H]; congruence.
Qed.

Lemma sorted_Sorted (l : list string) : Sorted string_le (sorted l).
Proof.
  induction l as [|x l IH]; simpl; [constructor|].
  now apply insert_sorted_Sorted.
Qed.

(** *** The loops, as maps *)

Section BuildFacts.
Variable user_model_costs : Dict.t (Dict.t float).

Lemma fill_row_from (all_models : list string) (user : string)
    (row : list float) (t : float) :
  fold_left
    (fun '(row, user_total) model =>
       let cost := cell_cost user_model_costs user model in
       ((row ++ [PyFloat.round cost 4])%list, user_total + cost))
    all_models (row, t)
  = ((row ++ row_of user_model_costs all_models user)%list,
     fold_left (fun t model => t + cell_cost user_model_costs user model)
               all_models t).
Proof.
  revert row t. induction all_models as [|m ms IH]; intros row t; simpl.
  - now rewrite app_nil_r.
  - rewrite IH. unfold row_of. now rewrite <- app_assoc.
Qed.

Lemma fill_row_spec (all_models : list string) (user : string) :
  fill_row user_model_costs all_models user
  = (row_of user_model_costs all_models user,
     fold_left (fun t model => t + cell_cost user_model_costs user model)
               all_models 0.0).
Proof. unfold fill_row. now rewrite fill_row_from. Qed.

Lemma fill_rows_from (all_users all_models : list string)
    (data : list (list float)) (totals : Dict.t float) :
  fold_left
    (fun '(data, user_totals) user =>
       let '(row, user_total) := fill_row user_model_costs all_models user in
       ((data ++ [row])%list,
        Dict.set user_totals user (PyFloat.round user_total 4)))
    all_users (data, totals)
  = ((data ++ map (row_of user_model_costs all_models) all_users)%list,
     fold_left
       (fun d user => Dict.set d user (user_total_of user_model_costs all_models user))
       all_users totals).
Proof.
  revert data totals. induction all_users as [|u us IH]; intros data totals; simpl.
  - now rewrite app_nil_r.
  - rewrite fill_row_spec, IH. now rewrite <- app_assoc.
Qed.

Lemma fill_rows_spec (all_users all_models : list string) :
  fill_rows user_model_costs all_users all_models
  = (map (row_of user_model_costs all_models) all_users,
     fold_left
       (fun d user => Dict.set d user (user_total_of user_model_costs all_models user))
       all_users Dict.empty).
Proof. unfold fill_rows. now rewrite fill_rows_from. Qed.

End BuildFacts.

(** *** Reading a dictionary that a loop has filled *)

Lemma get_fold_set_other {V : Type} (f : string -> V) (l : list string)
    (d : Dict.t V) (k : string) :
  ~ In k l ->
  Dict.get (fold_left (fun d x => Dict.set d x (f x)) l d) k = Dict.get d k.
Proof.
  revert d. induction l as [|x l IH]; intros d Hk; simpl; [reflexivity|].
  rewrite IH by (intros H; apply Hk; now right).
  apply Dict.get_set_ne. intros ->. apply Hk. now left.
Qed.

Lemma get_fold_set {V : Type} (f : string -> V) (l : list string)
    (d : Dict.t V) (k : string) :
  In k l ->
  Dict.get (fold_left (fun d x => Dict.set d x (f x)) l d) k = Some (f k).
Proof.
  revert d. induction l as [|x l IH]; intros d Hk; simpl; [easy|].
  destruct (in_dec string_dec k l) as [Hin|Hout].
  - now apply IH.
  - destruct Hk as [->|Hk]; [|contradiction].
    rewrite get_fold_set_other by assumption. apply Dict.get_set_eq.
Qed.

Lemma get_fold_set_indexed_other {V : Type} (g : nat -> V)
    (l : list (nat * string)) (d : Dict.t V) (k : string) :
  ~ In k (map snd l) ->
  Dict.get (fold_left (fun d '(j, x) => Dict.set d x (g j)) l d) k = Dict.get d k.
Proof.
  revert d. induction l as [|[j x] l IH]; intros d Hk; simpl; [reflexivity|].
  rewrite IH by (intros H; apply Hk; now right).
  apply Dict.get_set_ne. intros ->. apply Hk. now left.
Qed.

Lemma get_fold_set_indexed {V : Type} (g : nat -> V)
    (l : list (nat * string)) (d : Dict.t V) (j : nat) (k : string) :
  NoDup (map snd l) ->
  In (j, k) l ->
  Dict.get (fold_left (fun d '(j, x) => Dict.set d x (g j)) l d) k = Some (g j).
Proof.
  revert d. induction l as [|[i x] l IH]; intros d Hnd Hin; simpl; [easy|].
  inversion Hnd as [|? ? Hx Hl]; subst.
  destruct Hin as [[= -> ->]|Hin].
  - rewrite get_fold_set_indexed_other by assumption. apply Dict.get_set_eq.
  - now apply IH.
Qed.

Lemma enumerate_from_In {A : Type} (l : list A) (start j : nat) (x : A) :
  nth_error l j = Some x -> In ((start + j)%nat, x) (combine (seq start (length l)) l).
Proof.
  revert start j. induction l as [|y l IH]; intros start [|j]; simpl; try discriminate.
  - intros [= ->]. left. f_equal. lia.
  - intros H. right. replace (start + S j)%nat with (S start + j)%nat by lia.
    now apply IH.
Qed.

Lemma enumerate_In {A : Type} (l : list A) (j : nat) (x : A) :
  nth_error l j = Some x -> In (j, x) (enumerate l).
Proof. intros H. apply (enumerate_from_In l 0 j x H). Qed.

Lemma enumerate_snd {A : Type} (l : list A) : map snd (enumerate l) = l.
Proof.
  unfold enumerate. generalize 0%nat.
  induction l as [|x l IH]; intros n; simpl; [reflexivity|]. now rewrite IH.
Qed.

Lemma map_nth_seq {A B : Type} (f : A -> B) (l : list A) (d : A) :
  map (fun i => f (nth i l d)) (seq 0 (length l)) = map f l.
Proof.
  induction l as [|x l IH]; simpl; [reflexivity|].
  f_equal. rewrite <- seq_shift, map_map. exact IH.
Qed.

Lemma column_sum_spec (data : list (list float)) (j : nat) :
  column_sum data (length data) j
  = PyFloat.sum (map (fun row => nth j row 0.0) data).
Proof.
  unfold column_sum. f_equal.
  apply (map_nth_seq (fun row => nth j row 0.0) data []).
Qed.

(** *** The claims on the matrix *)

(** C1, as the spec states it, fails: the user total is the rounding of the
    sum of the costs, not the sum of the rounded cells, and the cells are
    rounded one by one before they are summed.  Three costs of [0.00004]
    are three cells [0.0]; the user total is [0.0001] and [total_cost] is
    [0.00012000000000000002]. *)
Lemma cost_matrix_sums_differ :
  exists s,
    Aggregation._process_logs_insights_results tiny_usage = Some (Aggregation.Data s) /\
    let m := cost_matrix (Aggregation.Summary.user_model_costs s)
                         (Aggregation.Summary.total_cost s) in
    users m = ["alice"%string] /\
    data m = [[0.0; 0.0; 0.0]] /\
    Dict.get (user_totals m) "alice" = Some 0.0001 /\
    PyFloat.eq (PyFloat.sum (nth 0 (data m) [])) 0.0001 = false /\
    total_cost m = 0.00012000000000000002 /\
    PrimFloat.leb
      (PrimFloat.abs (PyFloat.sum (concat (data m)) - total_cost m)) 0.0001
    = false /\
    ~ sums_match m.
Proof.
  eexists. split; [vm_compute; reflexivity|].
  cbv zeta.
  split; [vm_compute; reflexivity|].
  split; [vm_compute; reflexivity|].
  split; [vm_compute; reflexivity|].
  split; [vm_compute; reflexivity|].
  split; [vm_compute; reflexivity|].
  split; [vm_compute; reflexivity|].
  intros (Hrows & _ & _).
  destruct (Hrows 0%nat "alice"%string) as (total & Hget & Heq).
  - vm_compute. reflexivity.
  - vm_compute in Hget. injection Hget as <-.
    vm_compute in Heq. discriminate.
Qed.

(** C1 (amended): every cell is the cost rounded to 4 places; the user total
    is the sum of the costs of the row, rounded to 4 places; the model total
    is the sum of the cells of the column, rounded to 4 places; and
    [total_cost] is the total of the usage data, as it is. *)
Theorem cost_matrix_totals (user_model_costs : Dict.t (Dict.t float)) (total : float) :
  let m := cost_matrix user_model_costs total in
  length (data m) = length (users m) /\
  (forall i user,
      nth_error (users m) i = Some user ->
      nth_error (data m) i = Some (row_of user_model_costs (models m) user) /\
      Dict.get (user_totals m) user
      = Some (user_total_of user_model_costs (models m) user)) /\
  (forall j model,
      nth_error (models m) j = Some model ->
      Dict.get (model_totals m) model
      = Some (PyFloat.round
                (PyFloat.sum (map (fun row => nth j row 0.0) (data m))) 4)) /\
  total_cost m = total.
Proof.
  unfold cost_matrix. rewrite fill_rows_spec.
  cbn [users models data user_totals model_totals total_cost].
  set (all_users := sorted (Dict.keys user_model_costs)).
  set (all_models := sorted_set _).
  split; [apply length_map|]. split; [|split; [|reflexivity]].
  - intros i user Hi. split.
    + now rewrite nth_error_map, Hi.
    + apply get_fold_set. now apply nth_error_In with i.
  - intros j model Hj. unfold fill_model_totals.
    rewrite <- column_sum_spec, length_map.
    apply (get_fold_set_indexed
             (fun j => PyFloat.round
                (column_sum (map (row_of user_model_costs all_models) all_users)
                            (length all_users) j) 4)).
    + rewrite enumerate_snd. apply sorted_set_NoDup.
    + now apply enumerate_In.
Qed.

Lemma cost_matrix_totals_witness :
  let m := cost_matrix two_cells 0.00008 in
  nth_error (users m) 0 = Some "alice"%string /\
  nth_error (data m) 0 = Some (row_of two_cells (models m) "alice") /\
  Dict.get (user_totals m) "alice" = Some (user_total_of two_cells (models m) "alice") /\
  nth_error (models m) 1 = Some "model-b"%string /\
  Dict.get (model_totals m) "model-b"
  = Some (PyFloat.round (PyFloat.sum (map (fun row => nth 1 row 0.0) (data m))) 4).
Proof.
  cbv zeta.
  destruct (cost_matrix_totals two_cells 0.00008) as (_ & Hrows & Hcols & _).
  split; [reflexivity|].
  split; [apply (Hrows 0%nat "alice"%string); reflexivity|].
  split; [apply (Hrows 0%nat "alice"%string); reflexivity|].
  split; [reflexivity|].
  apply (Hcols 1%nat "model-b"%string). reflexivity.
Defined.

End CostMatrix.

(* ================================================================== *)
(** ** The query cache and [get_bedrock_usage] *)

Module Query.
#[local] Set Warnings "-inexact-float".
#[local] Open Scope float_scope.

(** *** The cache helpers *)

(** A value of [_query_cache]; query ids are the numbers the service gives
    to the queries it starts, in order. *)
Record CacheEntry : Type := {
  query_id : nat;
  status : string;
  timestamp : float
}.

(** The log of one accepted [start_query] call *)
Record StartedQuery : Type := {
  sq_query_id : nat;
  sq_days : Z;
  sq_end_time : float
}.

(** The module-level cache, and what the log-query service has been asked
    to start. *)
Record World : Type := {
  _query_cache : Dict.t CacheEntry;
  started : list StartedQuery
}.

Definition _cache_ttl : float := 600.

(** [f"bedrock_usage_{days}"] *)
Definition _get_cache_key (days : Z) : string :=
  "bedrock_usage_" ++ NilEmpty.string_of_int (Z.to_int days).

(** [_get_cached_query_id(days)], [now] being what [time.time()] returns *)
Definition _get_cached_query_id (days : Z) (now : float) (w : World)
  : option CacheEntry :=
  let cache_key := _get_cache_key days in
  match Dict.get (_query_cache w) cache_key with
  | Some entry =>
      if PrimFloat.ltb (now - timestamp entry) _cache_ttl then Some entry
      else None
  | None => None
  end.

(** [_cache_query_id(days, query_id, status)] *)
Definition _cache_query_id (days : Z) (qid : nat) (st : string) (now : float)
    (w : World) : World :=
  let cache_key := _get_cache_key days in
  {| _query_cache :=
       Dict.set (_query_cache w) cache_key
                {| query_id := qid; status := st; timestamp := now |};
     started := started w |}.

(** *** The log-query service *)

Inductive StartError : Type :=
| ResourceNotFound
| ClientError (message : string).

(** How the service answers: whether it refuses the [n]-th query it is asked
    to start, and the status and rows it reports for a query at its [k]-th
    [get_query_results]. *)
Record Service : Type := {
  start_error : nat -> option StartError;
  query_results : nat -> nat -> string * list Aggregation.LogRecord
}.

Inductive Failure : Type :=
| StartFailed (message : string)
| QueryFailed
| QueryCancelled
| QueryTimeout
| ResultOverflow
| DateOutOfRange.

(** What [get_bedrock_usage] returns: the dictionary for a missing log
    group, the ['Failed to fetch Bedrock usage data: ...'] dictionary, or
    what [_process_logs_insights_results] returns. *)
Inductive FetchResult : Type :=
| LogGroupNotFound
| FetchFailed (why : Failure)
| Fetched (r : Aggregation.result).

Definition max_wait : nat := 60.

(** *** The dates of the window *)

(** A [datetime] without time zone, in a process whose time zone is UTC (as
    on AWS Lambda): the microseconds from 1970-01-01 00:00:00 to it.
    [datetime.min] is 0001-01-01 00:00:00 and [datetime.max] is
    9999-12-31 23:59:59.999999. *)
Definition microseconds_per_day : Z := 86400000000.
Definition datetime_min : Z := -62135596800000000.
Definition datetime_max : Z := 253402300799999999.

(** The dates that [datetime.now()] returns and that [timestamp()]
    converts: both look one day back, for an hour that the clock shows
    twice, and raise [ValueError] when that day is before [datetime.min]. *)
Definition convertible (t : Z) : bool :=
  ((datetime_min + microseconds_per_day <=? t) && (t <=? datetime_max))%Z.

(** [datetime.now()] when the clock shows [now] seconds since the epoch, to
    the nearest microsecond; [None] when it raises. *)
Definition datetime_now (now : float) : option Z :=
  match Prim2SF now with
  | S754_zero _ => Some 0%Z
  | S754_finite s m e =>
      let t := PyFloat.scaled_round_half_even m e 6 in
      let t := if s then (- t)%Z else t in
      if convertible t then Some t else None
  | _ => None
  end.

(** [timedelta(days=days)]; [None] is its [OverflowError]. *)
Definition timedelta (days : Z) : option Z :=
  if (Z.abs days <=? 999999999)%Z then Some (days * microseconds_per_day)%Z
  else None.

(** [end_time - delta]; [None] is the [OverflowError] of a date out of
    range. *)
Definition datetime_sub (end_time delta : Z) : option Z :=
  let t := (end_time - delta)%Z in
  if ((datetime_min <=? t) && (t <=? datetime_max))%Z then Some t else None.

(** [end_time = datetime.now()], [start_time = end_time -
    timedelta(days=days)] and the two [timestamp()] calls that make the
    arguments of [start_query]: the two dates, or [None] when one of these
    raises.  All of them stand in the outer [try]. *)
Definition window (days : Z) (now : float) : option (Z * Z) :=
  match datetime_now now with
  | None => None
  | Some end_time =>
      match timedelta days with
      | None => None
      | Some delta =>
          match datetime_sub end_time delta with
          | None => None
          | Some start_time =>
              if convertible start_time then Some (start_time, end_time)
              else None
          end
      end
  end.

Section Fetch.
Variable svc : Service.

(** What one turn of the polling loop finds *)
Inductive Poll : Type :=
| PollComplete (rows : list Aggregation.LogRecord)
| PollRaise (why : Failure)
| PollAgain.

(** [result = get_query_results(queryId=query_id)] and the test of
    [result['status']] *)
Definition poll_once (qid elapsed : nat) : Poll :=
  let '(st, rows) := query_results svc qid elapsed in
  if String.eqb st "Complete" then PollComplete rows
  else if String.eqb st "Failed" then PollRaise QueryFailed
  else if String.eqb st "Cancelled" then PollRaise QueryCancelled
  else PollAgain.

(** What follows the loop once it is left *)
Definition conclude (rows : list Aggregation.LogRecord) : FetchResult :=
  match Aggregation._process_logs_insights_results rows with
  | Some r => Fetched r
  | None => FetchFailed ResultOverflow
  end.

(** [while elapsed < max_wait: ...; time.sleep(1); elapsed += 1], one poll
    a second; [remaining] is [max_wait - elapsed]. *)
Fixpoint poll_loop (qid remaining elapsed : nat) : FetchResult :=
  match remaining with
  | O => FetchFailed QueryTimeout
  | S remaining' =>
      match poll_once qid elapsed with
      | PollComplete rows => conclude rows
      | PollRaise why => FetchFailed why
      | PollAgain => poll_loop qid remaining' (S elapsed)
      end
  end.

(** [logs_client.start_query(...)]: the service numbers the query and the
    call is logged, or the service refuses. *)
Definition start_query (days : Z) (now : float) (w : World)
  : StartError + (nat * World) :=
  match start_error svc (List.length (started w)) with
  | Some e => inl e
  | None =>
      let qid := List.length (started w) in
      inr (qid,
           {| _query_cache := _query_cache w;
              started := (started w ++
                          [{| sq_query_id := qid; sq_days := days;
                              sq_end_time := now |}])%list |})
  end.

(** [get_bedrock_usage(days)], called when the clock shows [now].  When
    the dates of the window cannot be computed, the exception is caught by
    the outer handler before any query is started. *)
Definition get_bedrock_usage (days : Z) (now : float) (w : World)
  : FetchResult * World :=
  match window days now with
  | None => (FetchFailed DateOutOfRange, w)
  | Some _ =>
      match start_query days now w with
      | inl ResourceNotFound => (LogGroupNotFound, w)
      | inl (ClientError message) => (FetchFailed (StartFailed message), w)
      | inr (qid, w') => (poll_loop qid max_wait 0, w')
      end
  end.

(** *** Callers side by side *)

(** Where a caller of [get_bedrock_usage] stands: before [start_query],
    in the polling loop, or returned. *)
Inductive Caller : Type :=
| Ready (days : Z) (now : float)
| Polling (qid elapsed : nat)
| Returned (r : FetchResult).

(** One atomic step of a caller: the dates and the [start_query] call, or
    one turn of the loop. *)
Definition caller_step (c : Caller) (w : World) : Caller * World :=
  match c with
  | Ready days now =>
      match window days now with
      | None => (Returned (FetchFailed DateOutOfRange), w)
      | Some _ =>
          match start_query days now w with
          | inl ResourceNotFound => (Returned LogGroupNotFound, w)
          | inl (ClientError message) =>
              (Returned (FetchFailed (StartFailed message)), w)
          | inr (qid, w') => (Polling qid 0, w')
          end
      end
  | Polling qid elapsed =>
      if (max_wait <=? elapsed)%nat then (Returned (FetchFailed QueryTimeout), w)
      else
        match poll_once qid elapsed with
        | PollComplete rows => (Returned (conclude rows), w)
        | PollRaise why => (Returned (FetchFailed why), w)
        | PollAgain => (Polling qid (S elapsed), w)
        end
  | Returned r => (Returned r, w)
  end.

(** The callers in flight and the world they share *)
Definition System : Type := (list Caller * World)%type.

(** The caller at index [i] takes a step. *)
Definition system_step (i : nat) (s : System) : System :=
  match nth_error (fst s) i with
  | None => s
  | Some c =>
      let '(c', w') := caller_step c (snd s) in
      (firstn i (fst s) ++ c' :: skipn (S i) (fst s), w')%list
  end.

(** A schedule names the caller that steps next. *)
Definition run (schedule : list nat) (s : System) : System :=
  fold_left (fun s i => system_step i s) schedule s.

(** A caller alone, for [fuel] steps *)
Fixpoint caller_run (fuel : nat) (c : Caller) (w : World) : Caller * World :=
  match fuel with
  | O => (c, w)
  | S fuel' => let '(c', w') := caller_step c w in caller_run fuel' c' w'
  end.

Definition has_begun (c : Caller) : bool :=
  match c with Ready _ _ => false | _ => true end.

End Fetch.

(** The number of queries started for a window *)
Definition started_for (days : Z) (w : World) : nat :=
  List.length (filter (fun q => Z.eqb (sq_days q) days) (started w)).

(** C4 in the words of the claim *)
Definition at_most_one_query_per_key (w : World) : Prop :=
  forall days, (started_for days w <= 1)%nat.

Definition empty_world : World :=
  {| _query_cache := Dict.empty; started := [] |}.

(** The callers that have reached [start_query] *)
Definition begun (cs : list Caller) : nat :=
  List.length (filter has_begun cs).

(** What holds of the callers of one window [days] and of the world they
    share, whatever the schedule. *)
Record callers_inv (days : Z) (s : System) : Prop := {
  inv_ready :
    forall d now, In (Ready d now) (fst s) -> d = days /\ window d now <> None;
  inv_started : forall q, In q (started (snd s)) -> sq_days q = days;
  inv_count : List.length (started (snd s)) = begun (fst s)
}.

(** The callers as they arrive: none has begun, nothing is started. *)
Definition arrivals (days : Z) (nows : list float) : System :=
  (map (Ready days) nows, empty_world).

(** The caller at index [i] has begun. *)
Definition begun_at (i : nat) (s : System) : Prop :=
  exists c, nth_error (fst s) i = Some c /\ has_begun c = true.

(** The caller is in the polling loop on query [k], or has returned. *)
Definition polls (k : nat) (c : Caller) : Prop :=
  match c with
  | Ready _ _ => False
  | Polling qid _ => qid = k
  | Returned _ => True
  end.

(** A service that starts every query and reports it complete, with one
    row, at the first poll. *)
Definition prompt_service : Service :=
  {| start_error := fun _ => None;
     query_results := fun _ _ => ("Complete"%string, [Aggregation.sample_record]) |}.

(** A service that starts every query and keeps it running. *)
Definition slow_service : Service :=
  {| start_error := fun _ => None;
     query_results := fun _ _ => ("Running"%string, []) |}.

(** *** The cache helpers do what their docstrings say *)

Lemma cached_entry_within_ttl (days : Z) (qid : nat) (st : string)
    (now later : float) (w : World) :
  PrimFloat.ltb (later - now) _cache_ttl = true ->
  _get_cached_query_id days later (_cache_query_id days qid st now w)
  = Some {| query_id := qid; status := st; timestamp := now |}.
Proof.
  intros Hfresh. unfold _get_cached_query_id, _cache_query_id.
  cbn [_query_cache]. rewrite Dict.get_set_eq. cbn [timestamp].
  now rewrite Hfresh.
Qed.

Lemma cached_entry_after_ttl (days : Z) (qid : nat) (st : string)
    (now later : float) (w : World) :
  PrimFloat.ltb (later - now) _cache_ttl = false ->
  _get_cached_query_id days later (_cache_query_id days qid st now w) = None.
Proof.
  intros Hstale. unfold _get_cached_query_id, _cache_query_id.
  cbn [_query_cache]. rewrite Dict.get_set_eq. cbn [timestamp].
  now rewrite Hstale.
Qed.

(** *** [get_bedrock_usage] and the cache *)

Section FetchFacts.
Variable svc : Service.

(** The cache is neither read nor written. *)
Lemma get_bedrock_usage_leaves_cache (days : Z) (now : float) (w : World) :
  _query_cache (snd (get_bedrock_usage svc days now w)) = _query_cache w.
Proof.
  unfold get_bedrock_usage, start_query.
  destruct (window days now); [|reflexivity].
  destruct (start_error svc _) as [[|message]|]; reflexivity.
Qed.

Lemma get_bedrock_usage_blind_to_cache (days : Z) (now : float)
    (cache cache' : Dict.t CacheEntry) (qs : list StartedQuery) :
  fst (get_bedrock_usage svc days now {| _query_cache := cache; started := qs |})
  = fst (get_bedrock_usage svc days now {| _query_cache := cache'; started := qs |}) /\
  started (snd (get_bedrock_usage svc days now {| _query_cache := cache; started := qs |}))
  = started (snd (get_bedrock_usage svc days now {| _query_cache := cache'; started := qs |})).
Proof.
  unfold get_bedrock_usage, start_query. cbn [started _query_cache].
  destruct (window days now); [|split; reflexivity].
  destruct (start_error svc _) as [[|message]|]; split; reflexivity.
Qed.

(** Every call whose dates can be computed and that the service accepts
    starts a query of its own. *)
Lemma get_bedrock_usage_starts_query (days : Z) (now : float) (w : World) :
  window days now <> None ->
  start_error svc (List.length (started w)) = None ->
  started (snd (get_bedrock_usage svc days now w))
  = (started w ++ [{| sq_query_id := List.length (started w);
                      sq_days := days; sq_end_time := now |}])%list.
Proof.
  intros Hdates Hok. unfold get_bedrock_usage, start_query.
  destruct (window days now); [|contradiction]. now rewrite Hok.
Qed.

(** The steps of a caller, run to the end, are [get_bedrock_usage]. *)

Lemma caller_run_returned (fuel : nat) (r : FetchResult) (w : World) :
  caller_run svc fuel (Returned r) w = (Returned r, w).
Proof. induction fuel as [|fuel IH]; simpl; auto. Qed.

Lemma caller_run_polling (qid remaining elapsed : nat) (w : World) :
  (remaining + elapsed = max_wait)%nat ->
  caller_run svc (S remaining) (Polling qid elapsed) w
  = (Returned (poll_loop svc qid remaining elapsed), w).
Proof.
  revert elapsed. induction remaining as [|remaining IH]; intros elapsed Hsum.
  - simpl in Hsum. subst elapsed. reflexivity.
  - cbn [caller_run caller_step poll_loop].
    assert (Hlt : (max_wait <=? elapsed)%nat = false) by (apply Nat.leb_gt; lia).
    rewrite Hlt.
    destruct (poll_once svc qid elapsed) as [rows|why|]; cbv beta iota.
    + apply caller_run_returned.
    + apply caller_run_returned.
    + apply IH. lia.
Qed.

Lemma caller_run_get_bedrock_usage (days : Z) (now : float) (w : World) :
  caller_run svc (S (S max_wait)) (Ready days now) w
  = (Returned (fst (get_bedrock_usage svc days now w)),
     snd (get_bedrock_usage svc days now w)).
Proof.
  unfold get_bedrock_usage.
  change (caller_run svc (S (S max_wait)) (Ready days now) w)
    with (let '(c', w') := caller_step svc (Ready days now) w in
          caller_run svc (S max_wait) c' w').
  cbn [caller_step].
  destruct (window days now); [|apply caller_run_returned].
  destruct (start_query svc days now w) as [[|message]|[qid w']].
  - apply caller_run_returned.
  - apply caller_run_returned.
  - cbn [fst snd]. apply caller_run_polling. lia.
Qed.

End FetchFacts.

(** C2: two calls for a window of 7 days, one second apart, against a
    service that answers at once.  Both calls start a query, numbered 0
    and 1; the cache is empty before, between and after them, so the second
    call has no query id to reuse.  (The claim's second half holds: every
    call the service accepts starts a new query, also one made after the
    TTL.) *)
Theorem second_fetch_starts_new_query :
  let w1 := snd (get_bedrock_usage prompt_service 7 1700000000 empty_world) in
  let w2 := snd (get_bedrock_usage prompt_service 7 1700000001 w1) in
  PrimFloat.ltb (1700000001 - 1700000000) _cache_ttl = true /\
  map sq_query_id (started w1) = [0%nat] /\
  _get_cached_query_id 7 1700000001 w1 = None /\
  map sq_query_id (started w2) = [0%nat; 1%nat] /\
  started_for 7 w2 = 2%nat /\
  _query_cache w2 = Dict.empty.
Proof.
  cbv zeta.
  split; [reflexivity|]. split; [reflexivity|]. split; [reflexivity|].
  split; [reflexivity|]. split; reflexivity.
Qed.

(** *** Callers side by side: every caller starts a query of its own *)

Section Interleaving.
Variable svc : Service.
Hypothesis accepts : forall n, start_error svc n = None.

Lemma begun_app (l1 l2 : list Caller) :
  begun (l1 ++ l2) = (begun l1 + begun l2)%nat.
Proof. unfold begun. now rewrite filter_app, length_app. Qed.

Lemma nth_error_pieces {A : Type} (l : list A) (i : nat) (x : A) :
  nth_error l i = Some x ->
  l = (firstn i l ++ x :: skipn (S i) l)%list.
Proof.
  revert i. induction l as [|y l IH]; intros [|i]; simpl; try discriminate.
  - now intros [= ->].
  - intros H. f_equal. now apply IH.
Qed.

Lemma caller_step_started (c : Caller) (w : World) :
  match c with
  | Ready days now =>
      window days now <> None ->
      fst (caller_step svc c w) = Polling (List.length (started w)) 0 /\
      started (snd (caller_step svc c w))
      = (started w ++ [{| sq_query_id := List.length (started w);
                          sq_days := days; sq_end_time := now |}])%list
  | _ =>
      has_begun (fst (caller_step svc c w)) = true /\
      snd (caller_step svc c w) = w
  end.
Proof.
  destruct c as [days now|qid elapsed|r]; cbn [caller_step].
  - intros Hdates. destruct (window days now); [|contradiction].
    unfold start_query. rewrite accepts. split; reflexivity.
  - destruct (max_wait <=? elapsed)%nat; [split; reflexivity|].
    destruct (poll_once svc qid elapsed); split; reflexivity.
  - split; reflexivity.
Qed.

Lemma system_step_inv (days : Z) (i : nat) (s : System) :
  callers_inv days s -> callers_inv days (system_step svc i s).
Proof.
  intros [Hready Hstarted Hcount]. unfold system_step.
  destruct (nth_error (fst s) i) as [c|] eqn:Hi; [|now constructor].
  pose proof (nth_error_pieces _ _ _ Hi) as Hsplit.
  pose proof (caller_step_started c (snd s)) as Hstep.
  destruct (caller_step svc c (snd s)) as [c' w'] eqn:Hcs.
  cbn [fst snd] in Hstep.
  assert (Hold : forall x, In x (firstn i (fst s) ++ skipn (S i) (fst s)) ->
                           In x (fst s)).
  { intros x Hx. rewrite Hsplit. apply in_app_or in Hx. apply in_or_app.
    destruct Hx; [now left|right; now right]. }
  assert (Hbegun : begun (fst s)
                   = (begun (firstn i (fst s)) + begun [c]
                      + begun (skipn (S i) (fst s)))%nat).
  { rewrite Hsplit at 1. change (c :: skipn (S i) (fst s))
      with ([c] ++ skipn (S i) (fst s))%list. rewrite !begun_app. lia. }
  assert (Hbegun' : begun (firstn i (fst s) ++ c' :: skipn (S i) (fst s))
                    = (begun (firstn i (fst s)) + begun [c']
                       + begun (skipn (S i) (fst s)))%nat).
  { change (c' :: skipn (S i) (fst s))
      with ([c'] ++ skipn (S i) (fst s))%list. rewrite !begun_app. lia. }
  destruct c as [d now|qid elapsed|r].
  - destruct (Hready d now (nth_error_In _ _ Hi)) as [-> Hdates].
    destruct (Hstep Hdates) as [-> Hw'].
    constructor; cbn [fst snd].
    + intros d' now' Hin. apply (Hready d' now'). apply Hold.
      apply in_app_or in Hin. apply in_or_app.
      destruct Hin as [Hin|[Hin|Hin]]; [now left|discriminate|now right].
    + rewrite Hw'. intros q Hq. apply in_app_or in Hq.
      destruct Hq as [Hq|[<-|[]]]; [now apply Hstarted|reflexivity].
    + rewrite Hw', length_app, Hbegun', Hcount, Hbegun. unfold begun. simpl. lia.
  - destruct Hstep as [Hc' ->].
    constructor; cbn [fst snd]; [|assumption|].
    + intros d' now' Hin. apply (Hready d' now'). apply Hold.
      apply in_app_or in Hin. apply in_or_app.
      destruct Hin as [Hin|[Hin|Hin]]; [now left| |now right].
      subst c'. discriminate.
    + rewrite Hbegun', Hcount, Hbegun. unfold begun. simpl. rewrite Hc'. reflexivity.
  - destruct Hstep as [Hc' ->].
    constructor; cbn [fst snd]; [|assumption|].
    + intros d' now' Hin. apply (Hready d' now'). apply Hold.
      apply in_app_or in Hin. apply in_or_app.
      destruct Hin as [Hin|[Hin|Hin]]; [now left| |now right].
      subst c'. discriminate.
    + rewrite Hbegun', Hcount, Hbegun. unfold begun. simpl. rewrite Hc'. reflexivity.
Qed.

Lemma run_inv (days : Z) (schedule : list nat) (s : System) :
  callers_inv days s -> callers_inv days (run svc schedule s).
Proof.
  revert s. induction schedule as [|i rest IH]; intros s Hinv; simpl; [assumption|].
  apply IH. now apply system_step_inv.
Qed.

Lemma started_for_all (days : Z) (w : World) :
  (forall q, In q (started w) -> sq_days q = days) ->
  started_for days w = List.length (started w).
Proof.
  unfold started_for. induction (started w) as [|q qs IH]; intros Hall; simpl.
  - reflexivity.
  - rewrite (Hall q) by now left. rewrite Z.eqb_refl. simpl. f_equal.
    apply IH. intros q' Hq'. apply Hall. now right.
Qed.

Lemma arrivals_inv (days : Z) (nows : list float) :
  (forall now, In now nows -> window days now <> None) ->
  callers_inv days (arrivals days nows).
Proof.
  intros Hdates. constructor; cbn [arrivals fst snd].
  - intros d now Hin. apply in_map_iff in Hin.
    destruct Hin as (x & [= -> ->] & Hx). split; [reflexivity|now apply Hdates].
  - intros q [].
  - unfold begun. clear Hdates. induction nows as [|n ns IH]; simpl; auto.
Qed.

(** A caller that has taken a step has begun, and stays so. *)
Lemma system_step_length (i : nat) (s : System) :
  List.length (fst (system_step svc i s)) = List.length (fst s).
Proof.
  unfold system_step. destruct (nth_error (fst s) i) as [c|] eqn:Hi; [|reflexivity].
  destruct (caller_step svc c (snd s)) as [c' w']. cbn [fst].
  transitivity (List.length (firstn i (fst s) ++ c :: skipn (S i) (fst s))).
  - now rewrite !length_app.
  - now rewrite <- (nth_error_pieces _ _ _ Hi).
Qed.

Lemma caller_step_begun (c : Caller) (w : World) :
  has_begun (fst (caller_step svc c w)) = true.
Proof.
  destruct c as [days now|qid elapsed|r]; cbn [caller_step].
  - destruct (window days now); [|reflexivity].
    unfold start_query. now rewrite accepts.
  - destruct (max_wait <=? elapsed)%nat; [reflexivity|].
    now destruct (poll_once svc qid elapsed).
  - reflexivity.
Qed.

Lemma nth_error_replaced {A : Type} (l : list A) (i j : nat) (x y : A) :
  nth_error l i = Some x ->
  nth_error (firstn i l ++ y :: skipn (S i) l) j
  = if Nat.eqb j i then Some y else nth_error l j.
Proof.
  revert i j. induction l as [|z l IH]; intros [|i] [|j]; simpl; try discriminate;
    try reflexivity.
  intros H. now apply IH.
Qed.

Lemma system_step_begun_at (i j : nat) (s : System) :
  (j = i /\ i < List.length (fst s))%nat \/ begun_at j s ->
  begun_at j (system_step svc i s).
Proof.
  intros Hj. unfold system_step, begun_at.
  destruct (nth_error (fst s) i) as [c|] eqn:Hi.
  - pose proof (caller_step_begun c (snd s)) as Hb.
    destruct (caller_step svc c (snd s)) as [c' w']. cbn [fst snd] in *.
    rewrite (nth_error_replaced _ _ _ _ c' Hi).
    destruct (Nat.eqb j i) eqn:E.
    + exists c'. now split.
    + apply Nat.eqb_neq in E. destruct Hj as [[-> _]|Hj]; [contradiction|exact Hj].
  - destruct Hj as [[-> Hlt]|Hj]; [|exact Hj].
    apply nth_error_None in Hi. lia.
Qed.

Lemma run_begun_at (schedule : list nat) (j : nat) (s : System) :
  (In j schedule /\ j < List.length (fst s))%nat \/ begun_at j s ->
  begun_at j (run svc schedule s).
Proof.
  revert s. induction schedule as [|i rest IH]; intros s Hj; simpl.
  - destruct Hj as [[[] _]|Hj]. exact Hj.
  - apply IH. destruct Hj as [[[->|Hin] Hlt]|Hj].
    + right. apply system_step_begun_at. left. now split.
    + left. split; [assumption|]. now rewrite system_step_length.
    + right. apply system_step_begun_at. now right.
Qed.

Lemma run_length (schedule : list nat) (s : System) :
  List.length (fst (run svc schedule s)) = List.length (fst s).
Proof.
  revert s. induction schedule as [|i rest IH]; intros s; simpl; [reflexivity|].
  now rewrite IH, system_step_length.
Qed.

Lemma begun_all (cs : list Caller) :
  (forall i, (i < List.length cs)%nat ->
             exists c, nth_error cs i = Some c /\ has_begun c = true) ->
  begun cs = List.length cs.
Proof.
  unfold begun. induction cs as [|c cs IH]; intros Hall; [reflexivity|].
  simpl. destruct (Hall 0%nat) as (c0 & [= <-] & Hb); [simpl; lia|].
  rewrite Hb. simpl. f_equal. apply IH.
  intros i Hi. apply (Hall (S i)). simpl. lia.
Qed.

(** Once every caller has taken a step, there are as many queries as
    callers. *)
Lemma run_all_started (days : Z) (nows : list float) (schedule : list nat) :
  (forall now, In now nows -> window days now <> None) ->
  (forall i, (i < List.length nows)%nat -> In i schedule) ->
  started_for days (snd (run svc schedule (arrivals days nows))) = List.length nows.
Proof.
  intros Hdates Hall.
  destruct (run_inv days schedule _ (arrivals_inv days nows Hdates))
    as [_ Hstarted Hcount].
  rewrite (started_for_all _ _ Hstarted), Hcount.
  assert (Hlen : List.length (fst (run svc schedule (arrivals days nows)))
                 = List.length nows).
  { rewrite run_length. unfold arrivals. cbn [fst]. apply length_map. }
  rewrite <- Hlen. apply begun_all. intros i Hi.
  apply (run_begun_at schedule i (arrivals days nows)).
  left. split.
  - apply Hall. lia.
  - unfold arrivals. cbn [fst]. rewrite length_map. lia.
Qed.

(** *** The callers that call [start_query] one after the other, before any
    of them goes on *)

Lemma run_snoc (schedule : list nat) (i : nat) (s : System) :
  run svc (schedule ++ [i]) s = system_step svc i (run svc schedule s).
Proof. unfold run. now rewrite fold_left_app. Qed.

Lemma starts_in_order (days : Z) (nows : list float) (order : list nat) :
  (forall now, In now nows -> window days now <> None) ->
  NoDup order ->
  (forall i, In i order -> (i < List.length nows)%nat) ->
  let s := run svc order (arrivals days nows) in
  map sq_query_id (started (snd s)) = seq 0 (List.length order) /\
  (forall k i, nth_error order k = Some i ->
               nth_error (fst s) i = Some (Polling k 0)) /\
  (forall i, ~ In i order ->
             nth_error (fst s) i = nth_error (map (Ready days) nows) i).
Proof.
  intros Hdates. induction order as [|i p IH] using rev_ind; intros Hnd Hlt s.
  - split; [reflexivity|]. split; [|reflexivity].
    intros [|k] i H; discriminate.
  - apply NoDup_remove in Hnd. rewrite app_nil_r in Hnd. destruct Hnd as [Hndp Hip].
    destruct IH as (Hids & Hpolling & Hready);
      [assumption|intros j Hj; apply Hlt, in_or_app; now left|].
    assert (Hi : (i < List.length nows)%nat) by (apply Hlt, in_or_app; right; now left).
    destruct (nth_error nows i) as [now|] eqn:Hnow;
      [|apply nth_error_None in Hnow; lia].
    assert (Hci : nth_error (fst (run svc p (arrivals days nows))) i
                  = Some (Ready days now)).
    { rewrite (Hready i Hip), nth_error_map, Hnow. reflexivity. }
    assert (Hlen : List.length (started (snd (run svc p (arrivals days nows))))
                   = List.length p).
    { rewrite <- (length_map sq_query_id), Hids. apply length_seq. }
    pose proof (caller_step_started (Ready days now)
                  (snd (run svc p (arrivals days nows)))) as Hstep.
    cbv beta iota in Hstep.
    destruct (Hstep (Hdates now (nth_error_In _ _ Hnow))) as [Hc' Hw'].
    subst s. rewrite run_snoc. unfold system_step. rewrite Hci.
    destruct (caller_step svc (Ready days now)
                (snd (run svc p (arrivals days nows)))) as [c' w'].
    cbn [fst snd] in *. subst c'. rewrite Hlen in *.
    split; [|split].
    + rewrite Hw', map_app, Hids, length_app. cbn [map sq_query_id List.length].
      rewrite Nat.add_1_r, seq_S. reflexivity.
    + intros k j Hk. rewrite (nth_error_replaced _ _ _ _ _ Hci).
      destruct (Nat.lt_ge_cases k (List.length p)) as [Hkp|Hkp].
      * rewrite nth_error_app1 in Hk by assumption.
        assert (Hji : j <> i).
        { intros ->. apply Hip. now apply nth_error_In with k. }
        apply Nat.eqb_neq in Hji. rewrite Hji. now apply Hpolling.
      * rewrite nth_error_app2 in Hk by assumption.
        destruct (k - List.length p)%nat as [|d] eqn:Hd; [|destruct d; discriminate].
        injection Hk as <-. rewrite Nat.eqb_refl.
        replace k with (List.length p) by lia. reflexivity.
    + intros j Hj. rewrite (nth_error_replaced _ _ _ _ _ Hci).
      assert (Hji : j <> i) by (intros ->; apply Hj, in_or_app; right; now left).
      apply Nat.eqb_neq in Hji. rewrite Hji. apply Hready.
      intros Hin. apply Hj, in_or_app. now left.
Qed.

(** A caller stays on the query it polls. *)
Lemma caller_step_polls (k : nat) (c : Caller) (w : World) :
  polls k c -> polls k (fst (caller_step svc c w)).
Proof.
  destruct c as [days now|qid elapsed|r]; cbn [caller_step polls].
  - contradiction.
  - intros ->. destruct (max_wait <=? elapsed)%nat; [exact I|].
    destruct (poll_once svc k elapsed); cbn [fst polls]; auto.
  - auto.
Qed.

Lemma system_step_polls (k i j : nat) (s : System) :
  (exists c, nth_error (fst s) i = Some c /\ polls k c) ->
  exists c, nth_error (fst (system_step svc j s)) i = Some c /\ polls k c.
Proof.
  intros (c & Hc & Hk). unfold system_step.
  destruct (nth_error (fst s) j) as [cj|] eqn:Hj; [|now exists c].
  pose proof (caller_step_polls k cj (snd s)) as Hstep.
  destruct (caller_step svc cj (snd s)) as [c' w']. cbn [fst snd] in *.
  rewrite (nth_error_replaced _ _ _ _ c' Hj).
  destruct (Nat.eqb_spec i j) as [->|Hne]; [|now exists c].
  exists c'. split; [reflexivity|]. apply Hstep. congruence.
Qed.

Lemma run_polls (k i : nat) (schedule : list nat) (s : System) :
  (exists c, nth_error (fst s) i = Some c /\ polls k c) ->
  exists c, nth_error (fst (run svc schedule s)) i = Some c /\ polls k c.
Proof.
  revert s. induction schedule as [|j rest IH]; intros s H; simpl; [exact H|].
  apply IH. now apply system_step_polls.
Qed.

Lemma run_app (schedule rest : list nat) (s : System) :
  run svc (schedule ++ rest) s = run svc rest (run svc schedule s).
Proof. unfold run. apply fold_left_app. Qed.

End Interleaving.

(** C4, as the spec states it, fails: two callers for the window of 7 days
    whose steps alternate are both in the polling loop, each on a query of
    its own, so two queries are started for the one key. *)
Lemma concurrent_callers_start_two_queries :
  let s := run slow_service [0; 1; 0; 1]%nat
               (arrivals 7 [1700000000; 1700000000]) in
  fst s = [Polling 0 1; Polling 1 1] /\
  map sq_query_id (started (snd s)) = [0%nat; 1%nat] /\
  started_for 7 (snd s) = 2%nat /\
  ~ at_most_one_query_per_key (snd s).
Proof.
  cbv zeta.
  split; [vm_compute; reflexivity|].
  split; [vm_compute; reflexivity|].
  split; [vm_compute; reflexivity|].
  intros H. specialize (H 7%Z). vm_compute in H. lia.
Qed.

(** C4 (amended): concurrent calls are not collapsed.  Take the callers of
    one window whose dates can be computed, against a service that accepts
    every query, and let them call [start_query] one after the other, in any
    order, before any of them goes on past it.  Then there is a query for
    each caller, the [k]-th caller in that order polls the [k]-th query, its
    own, and however the callers' steps follow from there, the number of
    queries started for the window stays the number of callers and each
    caller stays on its own query until it returns.  (What a caller does
    that arrives after another has gone on is not said here.) *)
Theorem concurrent_callers_start_a_query_each (svc : Service) (days : Z)
    (nows : list float) (order rest : list nat) :
  (forall n, start_error svc n = None) ->
  (forall now, In now nows -> window days now <> None) ->
  Permutation order (seq 0 (List.length nows)) ->
  let s0 := run svc order (arrivals days nows) in
  let s := run svc (order ++ rest) (arrivals days nows) in
  map sq_query_id (started (snd s0)) = seq 0 (List.length nows) /\
  (forall k i, nth_error order k = Some i ->
               nth_error (fst s0) i = Some (Polling k 0)) /\
  started_for days (snd s0) = List.length nows /\
  started_for days (snd s) = List.length nows /\
  (forall k i, nth_error order k = Some i ->
               exists c, nth_error (fst s) i = Some c /\ polls k c).
Proof.
  intros accepts Hdates Hperm s0 s.
  assert (Hnd : NoDup order).
  { apply (Permutation_NoDup (Permutation_sym Hperm)), seq_NoDup. }
  assert (Hlt : forall i, In i order -> (i < List.length nows)%nat).
  { intros i Hi. apply (Permutation_in _ Hperm), in_seq in Hi. lia. }
  assert (Hall : forall i, (i < List.length nows)%nat -> In i order).
  { intros i Hi. apply (Permutation_in _ (Permutation_sym Hperm)), in_seq. lia. }
  destruct (starts_in_order svc accepts days nows order Hdates Hnd Hlt)
    as (Hids & Hpolling & _).
  fold s0 in Hids, Hpolling.
  rewrite (Permutation_length Hperm), length_seq in Hids.
  split; [exact Hids|]. split; [exact Hpolling|]. split; [|split].
  - now apply run_all_started.
  - apply run_all_started; [assumption..|].
    intros i Hi. apply in_or_app. left. now apply Hall.
  - intros k i Hk. unfold s. rewrite run_app. apply run_polls.
    exists (Polling k 0). split; [now apply Hpolling|reflexivity].
Qed.

Lemma concurrent_callers_start_a_query_each_witness :
  let s0 := run slow_service [1; 0]%nat (arrivals 7 [1700000000; 1700000000]) in
  let s := run slow_service ([1; 0]%nat ++ [0; 1; 1]%nat)%list
               (arrivals 7 [1700000000; 1700000000]) in
  map sq_query_id (started (snd s0)) = [0; 1]%nat /\
  nth_error (fst s0) 1 = Some (Polling 0 0) /\
  nth_error (fst s0) 0 = Some (Polling 1 0) /\
  started_for 7 (snd s) = 2%nat /\
  fst s = [Polling 1 1; Polling 0 2].
Proof.
  cbv zeta.
  destruct (concurrent_callers_start_a_query_each slow_service 7
              [1700000000; 1700000000] [1; 0]%nat [0; 1; 1]%nat)
    as (Hids & Hpolling & _ & Hcount & _).
  - intros n. reflexivity.
  - intros now [<-|[<-|[]]]; vm_compute; discriminate.
  - apply perm_swap.
  - split; [exact Hids|].
    split; [apply (Hpolling 0%nat 1%nat); reflexivity|].
    split; [apply (Hpolling 1%nat 0%nat); reflexivity|].
    split; [exact Hcount|vm_compute; reflexivity].
Defined.

End Query.

(* ================================================================== *)
(** ** The route [/api/cost-matrix] *)

Module Api.
#[local] Set Warnings "-inexact-float".

(** The JSON of the response: the dictionary of [get_bedrock_usage] when it
    carries an ['error'], the matrix otherwise. *)
Inductive Response : Type :=
| ErrorResponse (data : Query.FetchResult)
| MatrixResponse (m : CostMatrix.Matrix).

(** [cost_matrix_api()] for a request with [days], past the access check *)
Definition cost_matrix_api (svc : Query.Service) (days : Z) (now : float)
    (w : Query.World) : Response * Query.World :=
  let '(data, w') := Query.get_bedrock_usage svc days now w in
  match data with
  | Query.Fetched (Aggregation.Data s) =>
      (MatrixResponse
         (CostMatrix.cost_matrix (Aggregation.Summary.user_model_costs s)
                                 (Aggregation.Summary.total_cost s)), w')
  | _ => (ErrorResponse data, w')
  end.

(** The request for the tiny usage is answered with the matrix whose cells
    are all [0.0]. *)
Definition tiny_service : Query.Service :=
  {| Query.start_error := fun _ => None;
     Query.query_results := fun _ _ => ("Complete"%string, CostMatrix.tiny_usage) |}.

Example cost_matrix_api_tiny_usage :
  exists m w,
    cost_matrix_api tiny_service 7 1700000000%float Query.empty_world
    = (MatrixResponse m, w) /\
    CostMatrix.data m = [[0%float; 0%float; 0%float]] /\
    Dict.get (CostMatrix.user_totals m) "alice" = Some 0.0001%float.
Proof.
  eexists. eexists. split; [vm_compute; reflexivity|]. split; reflexivity.
Qed.

End Api.

(* ================================================================== *)
(** ** More on model ids and prices *)

Module ModelIdFacts.
Import PyStr ModelId.
#[local] Set Warnings "-inexact-float".

(** [c in s] for a character *)
Fixpoint has_char (c : ascii) (s : string) : bool :=
  match s with
  | EmptyString => false
  | String x s' => Ascii.eqb x c || has_char c s'
  end.

(** The keys of a price table are canonical ids. *)
Definition keys_canonical (table : Dict.t Pricing.PricingEntry) : bool :=
  forallb (fun kv => is_canonical (fst kv)) table.

Lemma append_assoc (a b c : string) : (a ++ b) ++ c = a ++ (b ++ c).
Proof. induction a as [|x a IH]; simpl; [reflexivity|now rewrite IH]. Qed.

Lemma strip_arn_suffix (m : string) : exists p, m = p ++ strip_arn m.
Proof.
  unfold strip_arn. destruct (partition arn_marker m) as [[a b]|] eqn:H.
  - exists (a ++ arn_marker). rewrite append_assoc. now apply partition_Some.
  - now exists "".
Qed.

Lemma strip_region_suffix (m : string) : exists p, m = p ++ strip_region m.
Proof.
  unfold strip_region. destruct (partition "." m) as [[a b]|] eqn:H.
  - destruct (mem a region_prefixes).
    + exists (a ++ "."). rewrite append_assoc. now apply partition_Some.
    + now exists "".
  - now exists "".
Qed.

(** X1: [strip_model_prefix] only cuts at the front: what it returns is a
    suffix of the id it was given. *)
Theorem strip_model_prefix_is_suffix (model_id : string) :
  exists removed, model_id = removed ++ strip_model_prefix model_id.
Proof.
  unfold strip_model_prefix.
  destruct (strip_arn_suffix model_id) as [p1 H1].
  destruct (strip_region_suffix (strip_arn model_id)) as [p2 H2].
  exists (p1 ++ p2). rewrite append_assoc, <- H2. exact H1.
Qed.

(** *** Region prefixes and ARN wrappers do not change the price *)

Lemma prefix_nil (s : string) : String.prefix "" s = true.
Proof. now destruct s. Qed.

Lemma strip_region_prefixed (region key : string) :
  In region region_prefixes -> strip_region (region ++ "." ++ key) = key.
Proof.
  unfold strip_region.
  intros [<-|[<-|[<-|[<-|[]]]]]; cbn; rewrite prefix_nil; reflexivity.
Qed.

Lemma contains_marker_prefixed (region key : string) :
  In region region_prefixes ->
  contains arn_marker (region ++ "." ++ key) = contains arn_marker key.
Proof.
  unfold contains.
  intros [<-|[<-|[<-|[<-|[]]]]]; cbn;
    destruct (partition arn_marker key) as [[a b]|]; reflexivity.
Qed.

Lemma strip_model_prefix_prefixed (region key : string) :
  In region region_prefixes ->
  contains arn_marker key = false ->
  strip_model_prefix (region ++ "." ++ key) = key.
Proof.
  intros Hr Hk. unfold strip_model_prefix.
  rewrite strip_arn_absent by now rewrite contains_marker_prefixed.
  now apply strip_region_prefixed.
Qed.

Lemma strip_model_prefix_wrapped (model_id arn region key : string) :
  partition arn_marker model_id = Some (arn, region ++ "." ++ key) ->
  In region region_prefixes ->
  strip_model_prefix model_id = key.
Proof.
  intros Hp Hr. unfold strip_model_prefix, strip_arn. rewrite Hp.
  now apply strip_region_prefixed.
Qed.

Lemma lookup_pricing_canonical_key (table : Dict.t Pricing.PricingEntry)
    (model_id key : string) (entry : Pricing.PricingEntry) :
  strip_model_prefix model_id = key ->
  Dict.get table key = Some entry ->
  Pricing.lookup_pricing table model_id = Some entry.
Proof.
  intros Hs Hg. unfold Pricing.lookup_pricing, Dict.mem. now rewrite Hs, Hg.
Qed.

Lemma BEDROCK_PRICING_canonical : keys_canonical Pricing.BEDROCK_PRICING = true.
Proof. vm_compute. reflexivity. Qed.

(** X2: a key of [BEDROCK_PRICING] has the same price when it is looked up
    as it stands, behind a region prefix ([us.], [global.], [eu.], [ap.]),
    or as the text after the first [':inference-profile/'] of an ARN, with
    or without a region prefix. *)
Theorem price_ignores_region_and_arn (key region : string)
    (entry : Pricing.PricingEntry) :
  Dict.get Pricing.BEDROCK_PRICING key = Some entry ->
  In region region_prefixes ->
  Pricing.get_model_pricing key = Some entry /\
  Pricing.get_model_pricing (region ++ "." ++ key) = Some entry /\
  (forall model_id arn,
      partition arn_marker model_id = Some (arn, key) \/
      partition arn_marker model_id = Some (arn, region ++ "." ++ key) ->
      Pricing.get_model_pricing model_id = Some entry).
Proof.
  intros Hg Hr.
  assert (Hcanon : is_canonical key = true).
  { pose proof BEDROCK_PRICING_canonical as H. unfold keys_canonical in H.
    rewrite forallb_forall in H. exact (H _ (Dict.get_In _ _ _ Hg)). }
  pose proof (strip_model_prefix_canonical _ Hcanon) as Hfix.
  assert (Hmark : contains arn_marker key = false).
  { unfold is_canonical in Hcanon. apply andb_prop in Hcanon.
    destruct Hcanon as [H _]. now apply negb_true_iff in H. }
  assert (Hreg : strip_region key = key).
  { apply strip_region_absent. unfold is_canonical in Hcanon.
    apply andb_prop in Hcanon. destruct Hcanon as [_ H].
    now apply negb_true_iff in H. }
  unfold Pricing.get_model_pricing. repeat split.
  - now apply lookup_pricing_canonical_key with key.
  - apply lookup_pricing_canonical_key with key; [|assumption].
    now apply strip_model_prefix_prefixed.
  - intros model_id arn [Hp|Hp].
    + apply lookup_pricing_canonical_key with key; [|assumption].
      unfold strip_model_prefix, strip_arn. now rewrite Hp.
    + apply lookup_pricing_canonical_key with key; [|assumption].
      now apply strip_model_prefix_wrapped with arn region.
Qed.

Lemma price_ignores_region_and_arn_witness :
  Pricing.get_model_pricing "anthropic.claude-opus-4-1-20250805-v1:0"
    = Some {| Pricing.input := 15.0; Pricing.output := 75.0 |} /\
  Pricing.get_model_pricing "global.anthropic.claude-opus-4-1-20250805-v1:0"
    = Some {| Pricing.input := 15.0; Pricing.output := 75.0 |} /\
  Pricing.get_model_pricing
    "arn:aws:bedrock:us-west-2:405644541454:inference-profile/global.anthropic.claude-opus-4-1-20250805-v1:0"
    = Some {| Pricing.input := 15.0; Pricing.output := 75.0 |}.
Proof.
  destruct (price_ignores_region_and_arn
              "anthropic.claude-opus-4-1-20250805-v1:0" "global"
              {| Pricing.input := 15.0; Pricing.output := 75.0 |}
              eq_refl (or_intror (or_introl eq_refl)))
    as (Hkey & Hregion & Harn).
  split; [exact Hkey|]. split; [exact Hregion|].
  apply (Harn _ "arn:aws:bedrock:us-west-2:405644541454").
  right. reflexivity.
Defined.

(** *** The characters of a display name *)

Lemma has_char_app (c : ascii) (a b : string) :
  has_char c (a ++ b) = has_char c a || has_char c b.
Proof.
  induction a as [|x a IH]; simpl; [reflexivity|].
  now rewrite IH, orb_assoc.
Qed.

Lemma replace_char_removes (c d : ascii) (s : string) :
  Ascii.eqb d c = false -> has_char c (replace_char c d s) = false.
Proof.
  intros Hd. induction s as [|x s IH]; simpl; [reflexivity|].
  rewrite IH, orb_false_r. destruct (Ascii.eqb x c) eqn:E; assumption.
Qed.

Lemma replace_char_keeps_absent (x c d : ascii) (s : string) :
  Ascii.eqb d x = false ->
  has_char x s = false -> has_char x (replace_char c d s) = false.
Proof.
  intros Hd. induction s as [|y s IH]; simpl; [reflexivity|].
  intros [Hy Hs]%orb_false_elim. rewrite (IH Hs), orb_false_r.
  destruct (Ascii.eqb y c); assumption.
Qed.

Lemma split_ws_from_chars (x : ascii) (s cur : string) :
  has_char x cur = false -> has_char x s = false ->
  Forall (fun w => has_char x w = false) (split_ws_from cur s).
Proof.
  revert cur. induction s as [|c s IH]; intros cur Hcur Hs; simpl.
  - destruct (String.eqb cur ""); repeat constructor. assumption.
  - simpl in Hs. apply orb_false_elim in Hs. destruct Hs as [Hc Hs].
    destruct (is_space c).
    + destruct (String.eqb cur ""); [now apply IH|].
      constructor; [assumption|now apply IH].
    + apply IH; [|assumption].
      rewrite has_char_app, Hcur. simpl. now rewrite Hc.
Qed.

Lemma map_chars_keeps_absent (f : ascii -> ascii) (x : ascii) (s : string) :
  (forall c, Ascii.eqb (f c) x = Ascii.eqb c x) ->
  has_char x (map_chars f s) = has_char x s.
Proof.
  intros Hf. induction s as [|c s IH]; simpl; [reflexivity|].
  now rewrite Hf, IH.
Qed.

Lemma capitalize_keeps_absent (x : ascii) (w : string) :
  (forall c, Ascii.eqb (upper c) x = Ascii.eqb c x) ->
  (forall c, Ascii.eqb (lower c) x = Ascii.eqb c x) ->
  has_char x (capitalize w) = has_char x w.
Proof.
  intros Hu Hl. destruct w as [|c w]; simpl; [reflexivity|].
  now rewrite Hu, (map_chars_keeps_absent lower x w Hl).
Qed.

Lemma join_chars (x : ascii) (ws : list string) :
  Ascii.eqb " " x = false ->
  Forall (fun w => has_char x w = false) ws ->
  has_char x (join " " ws) = false.
Proof.
  intros Hsp. unfold join. induction 1 as [|w ws Hw Hws IH]; [reflexivity|].
  destruct ws as [|w' ws]; [exact Hw|].
  cbn [String.concat]. rewrite !has_char_app, Hw.
  cbn [has_char orb]. rewrite Hsp. exact IH.
Qed.

Lemma words_chars (x : ascii) (s : string) :
  Ascii.eqb " " x = false ->
  (forall c, Ascii.eqb (upper c) x = Ascii.eqb c x) ->
  (forall c, Ascii.eqb (lower c) x = Ascii.eqb c x) ->
  has_char x s = false ->
  has_char x (join " " (map capitalize (split_ws s))) = false.
Proof.
  intros Hsp Hu Hl Hs. apply join_chars; [assumption|].
  apply Forall_map.
  assert (Hws : Forall (fun w => has_char x w = false) (split_ws s))
    by now apply split_ws_from_chars.
  revert Hws. apply Forall_impl. intros w Hw.
  now rewrite capitalize_keeps_absent.
Qed.

Lemma upper_not_hyphen (c : ascii) : Ascii.eqb (upper c) "-" = Ascii.eqb c "-".
Proof. destruct c as [[] [] [] [] [] [] [] []]; reflexivity. Qed.

Lemma lower_not_hyphen (c : ascii) : Ascii.eqb (lower c) "-" = Ascii.eqb c "-".
Proof. destruct c as [[] [] [] [] [] [] [] []]; reflexivity. Qed.

Lemma upper_not_underscore (c : ascii) : Ascii.eqb (upper c) "_" = Ascii.eqb c "_".
Proof. destruct c as [[] [] [] [] [] [] [] []]; reflexivity. Qed.

Lemma lower_not_underscore (c : ascii) : Ascii.eqb (lower c) "_" = Ascii.eqb c "_".
Proof. destruct c as [[] [] [] [] [] [] [] []]; reflexivity. Qed.

(** X3: whatever the id, the display name holds no hyphen and no
    underscore: each one has become a space between two words. *)
Theorem display_name_has_no_hyphen (model_id : string) :
  has_char "-" (get_model_display_name model_id) = false /\
  has_char "_" (get_model_display_name model_id) = false.
Proof.
  unfold get_model_display_name. cbv zeta.
  set (clean_id := if negb (search_date model_id) then _ else _).
  assert (Hh : has_char "-" (replace_char "_" " " (replace_char "-" " " clean_id)) = false).
  { apply replace_char_keeps_absent; [reflexivity|].
    now apply replace_char_removes. }
  assert (Hu : has_char "_" (replace_char "_" " " (replace_char "-" " " clean_id)) = false)
    by now apply replace_char_removes.
  pose proof (words_chars "-" _ eq_refl upper_not_hyphen lower_not_hyphen Hh) as Wh.
  pose proof (words_chars "_" _ eq_refl upper_not_underscore lower_not_underscore Hu) as Wu.
  destruct (contains "[1m]" model_id).
  - rewrite !has_char_app, Wh, Wu. split; reflexivity.
  - split; assumption.
Qed.

End ModelIdFacts.

(* ================================================================== *)
(** ** More on user names *)

Module UserIdFacts.
Import PyStr UserId.

(** The aliases of [USER_MAP], all together *)
Definition all_aliases : list string :=
  flat_map (fun kv => snd kv) USER_MAP.

Lemma prefix_app (p x y : string) :
  String.prefix p x = true -> String.prefix p (x ++ y) = true.
Proof.
  revert x. induction p as [|c p IH]; intros [|d x]; simpl; try easy.
  - now destruct y.
  - destruct (ascii_dec c d); [apply IH|easy].
Qed.

(** What stands before the first occurrence of a separator holds none. *)
Lemma partition_before_clean (sep s a b : string) :
  sep <> "" -> partition sep s = Some (a, b) -> partition sep a = None.
Proof.
  intros Hsep. revert a b. induction s as [|c s IH]; intros a b.
  - simpl. destruct sep; [easy|discriminate].
  - cbn [partition]. destruct (String.prefix sep (String c s)) eqn:Hp.
    + intros [= <- <-]. destruct sep; [easy|reflexivity].
    + destruct (partition sep s) as [[a' b']|] eqn:Hs; [|discriminate].
      intros [= <- <-]. cbn [partition].
      destruct (String.prefix sep (String c a')) eqn:Hp'.
      * pose proof (partition_Some _ _ _ _ Hs) as ->.
        change (String c (a' ++ sep ++ b')) with (String c a' ++ (sep ++ b')) in Hp.
        rewrite (prefix_app _ _ _ Hp') in Hp. discriminate.
      * now rewrite (IH _ _ eq_refl).
Qed.

Lemma first_segment_clean (sep s : string) :
  sep <> "" -> contains sep (first_segment sep s) = false.
Proof.
  intros Hsep. unfold contains, first_segment.
  destruct (partition sep s) as [[a b]|] eqn:H.
  - now rewrite (partition_before_clean _ _ _ _ Hsep H).
  - now rewrite H.
Qed.

(** X4: the name taken from an ARN that holds ['user/'] or
    ['assumed-role/'] is one path segment: it holds no ['/']. *)
Theorem extract_user_is_one_segment (user_arn : string) :
  contains "user/" user_arn = true \/ contains "assumed-role/" user_arn = true ->
  contains "/" (extract_user user_arn) = false.
Proof.
  unfold extract_user, contains.
  destruct (partition "user/" user_arn) as [[a b]|].
  - intros _. now apply first_segment_clean.
  - destruct (partition "assumed-role/" user_arn) as [[a b]|].
    + intros _. now apply first_segment_clean.
    + intros [H|H]; discriminate.
Qed.

Lemma extract_user_is_one_segment_witness :
  contains "/" (extract_user "arn:aws:sts::123456789012:assumed-role/Admin/session-1") = false.
Proof.
  apply extract_user_is_one_segment. right. reflexivity.
Defined.

(** A name that is shown: without [':'], not starting with ['arn'], and
    none of the aliases of [USER_MAP]. *)
Definition presentable (user : string) : Prop :=
  contains ":" user = false /\
  startswith user "arn" = false /\
  ~ In user all_aliases.

Lemma normalize_username_presentable (raw_user : string) :
  presentable (normalize_username raw_user).
Proof.
  unfold presentable.
  unfold normalize_username, normalize_with.
  set (user := strip_bedrock raw_user).
  unfold Dict.mem, USER_MAP. cbn [Dict.get find_alias].
  destruct (String.eqb user "peterdir") eqn:Hp.
  - apply String.eqb_eq in Hp. rewrite Hp.
    repeat split; try reflexivity. cbn. intros [H|[H|[]]]; discriminate.
  - destruct (mem user ["aider"; "dirkcli"]) eqn:Ha.
    + repeat split; try reflexivity. cbn. intros [H|[H|[]]]; discriminate.
    + destruct (contains ":" user) eqn:Hc; cbn [orb].
      * repeat split; try reflexivity. cbn. intros [H|[H|[]]]; discriminate.
      * destruct (startswith user "arn") eqn:Hs.
        -- repeat split; try reflexivity. cbn. intros [H|[H|[]]]; discriminate.
        -- repeat split; try assumption.
           cbn. intros Hin.
           assert (Hm : mem user ["aider"; "dirkcli"] = true); [|congruence].
           unfold mem. apply existsb_exists. exists user.
           split; [|apply String.eqb_refl].
           destruct Hin as [H|[H|[]]]; [left|right; left]; exact H.
Qed.

End UserIdFacts.

(* ================================================================== *)
(** ** More on the aggregation *)

Module AggregationFacts.
Import Aggregation.
#[local] Set Warnings "-inexact-float".
#[local] Open Scope float_scope.

(** What the loop body will do with a record, read off the record alone. *)
Inductive Kind : Type := WillSkip | WillRaise | WillFold.

Definition classify (record : LogRecord) : Kind :=
  let fields := Dict.of_items record in
  if String.eqb (Dict.get_default fields "identity.arn" "Unknown") "Unknown"
     || String.eqb (Dict.get_default fields "modelId" "Unknown") "Unknown"
  then WillSkip
  else
    match int_field fields "invocations", int_field fields "total_input_tokens",
          int_field fields "total_cache_write_tokens",
          int_field fields "total_output_tokens" with
    | Some _, Some input_tokens, Some cache_write_tokens, Some output_tokens =>
        match PyFloat.truediv (input_tokens + cache_write_tokens) million,
              PyFloat.truediv output_tokens million with
        | Some _, Some _ => WillFold
        | _, _ => WillRaise
        end
    | _, _, _, _ => WillSkip
    end.

(** The accumulators with another cache of stripped ids *)
Definition with_cache (acc : Acc) (cache : Dict.t string) : Acc := {|
  user_invocations := user_invocations acc;
  daily_trend := daily_trend acc;
  model_usage := model_usage acc;
  user_tokens := user_tokens acc;
  user_costs := user_costs acc;
  model_tokens := model_tokens acc;
  model_costs := model_costs acc;
  model_invocations := model_invocations acc;
  daily_costs := daily_costs acc;
  user_daily_costs := user_daily_costs acc;
  user_model_costs := user_model_costs acc;
  user_model_daily_costs := user_model_daily_costs acc;
  total_events := total_events acc;
  model_prefix_cache := cache |}.

(** The accumulators after a record of [user], [model] and [day] is folded *)
Definition folded (acc : Acc) (user model day : string)
    (invocations input output : Z) (cost : float) (cache : Dict.t string) : Acc := {|
  user_invocations := add_int (user_invocations acc) user invocations;
  model_usage := add_int (model_usage acc) model invocations;
  daily_trend := add_int (daily_trend acc) day invocations;
  user_tokens := add_tokens (user_tokens acc) user input output;
  user_costs := add_float (user_costs acc) user cost;
  model_tokens := add_tokens (model_tokens acc) model input output;
  model_costs := add_float (model_costs acc) model cost;
  model_invocations := add_int (model_invocations acc) model invocations;
  daily_costs := add_float (daily_costs acc) day cost;
  user_model_costs := add_float2 (user_model_costs acc) user model cost;
  user_model_daily_costs :=
    add_float3 (user_model_daily_costs acc) user model day cost;
  user_daily_costs := add_float2 (user_daily_costs acc) user day cost;
  total_events := (total_events acc + invocations)%Z;
  model_prefix_cache := cache |}.

(** The sum of the values of a dictionary of counts *)
Definition total (d : Dict.t Z) : Z := fold_right Z.add 0%Z (Dict.values d).

(** What the accumulators keep, record after record: the dictionaries of one
    dimension have the same keys in the same order, no key twice; the counts
    of each dimension add up to [total_events]; and every user is a
    presentable name. *)
Record aligned (acc : Acc) : Prop := {
  al_user_tokens : Dict.keys (user_tokens acc) = Dict.keys (user_invocations acc);
  al_user_costs : Dict.keys (user_costs acc) = Dict.keys (user_invocations acc);
  al_user_daily : Dict.keys (user_daily_costs acc) = Dict.keys (user_invocations acc);
  al_user_model : Dict.keys (user_model_costs acc) = Dict.keys (user_invocations acc);
  al_user_model_daily :
    Dict.keys (user_model_daily_costs acc) = Dict.keys (user_invocations acc);
  al_model_tokens : Dict.keys (model_tokens acc) = Dict.keys (model_usage acc);
  al_model_costs : Dict.keys (model_costs acc) = Dict.keys (model_usage acc);
  al_model_invocations : model_invocations acc = model_usage acc;
  al_daily_costs : Dict.keys (daily_costs acc) = Dict.keys (daily_trend acc);
  al_users_once : NoDup (Dict.keys (user_invocations acc));
  al_models_once : NoDup (Dict.keys (model_usage acc));
  al_days_once : NoDup (Dict.keys (daily_trend acc));
  al_total_users : total_events acc = total (user_invocations acc);
  al_total_models : total_events acc = total (model_usage acc);
  al_total_days : total_events acc = total (daily_trend acc);
  al_presentable :
    forall user, In user (Dict.keys (user_invocations acc)) ->
                 UserIdFacts.presentable user
}.

Lemma with_cache_same (acc : Acc) : with_cache acc (model_prefix_cache acc) = acc.
Proof. now destruct acc. Qed.

Lemma cache_read (cache : Dict.t string) (model_id : string) :
  exists model,
    Dict.get (if negb (Dict.mem model_id cache)
              then Dict.set cache model_id (ModelId.strip_model_prefix model_id)
              else cache) model_id = Some model.
Proof.
  unfold Dict.mem. destruct (Dict.get cache model_id) as [v|] eqn:Hg; simpl.
  - now exists v.
  - eexists. apply Dict.get_set_eq.
Qed.

(** The three outcomes of the loop body, with the accumulators they leave. *)
Lemma process_record_shape (acc : Acc) (record : LogRecord) :
  match classify record with
  | WillSkip => process_record acc record = Skipped acc
  | WillRaise => process_record acc record = Raised
  | WillFold =>
      exists model invocations input output cost cache,
        process_record acc record
        = Folded (folded acc
                    (UserId.normalize_username
                       (UserId.extract_user
                          (Dict.get_default (Dict.of_items record)
                                            "identity.arn" "Unknown")))
                    model
                    (Dict.get_default (Dict.of_items record) "date_day" "Unknown")
                    invocations input output cost cache)
  end.
Proof.
  unfold classify, process_record.
  destruct (_ || _); [reflexivity|].
  destruct (int_field _ "invocations") as [inv|]; [|reflexivity].
  destruct (int_field _ "total_input_tokens") as [it|]; [|reflexivity].
  destruct (int_field _ "total_cache_write_tokens") as [cw|]; [|reflexivity].
  destruct (int_field _ "total_output_tokens") as [ot|]; [|reflexivity].
  cbv zeta.
  destruct (cache_read (model_prefix_cache acc)
              (Dict.get_default (Dict.of_items record) "modelId" "Unknown"%string))
    as [model Hget].
  rewrite Hget.
  destruct (Pricing.get_model_pricing_total
              (Dict.get_default (Dict.of_items record) "modelId" "Unknown"%string))
    as [pricing Hp].
  rewrite Hp.
  destruct (PyFloat.truediv (it + cw) million) as [qi|]; [|reflexivity].
  destruct (PyFloat.truediv ot million) as [qo|]; [|reflexivity].
  repeat eexists.
Qed.

(** *** The three ends of a pass *)

Lemma set_not_empty {V : Type} (d : Dict.t V) (k : string) (v : V) :
  Dict.set d k v <> [].
Proof. destruct d as [|[k' v'] d]; simpl; [easy|]. now destruct (String.eqb k k'). Qed.

Lemma process_records_ends (records : list LogRecord) (acc : Acc) :
  match process_records acc records with
  | None => exists r, In r records /\ classify r = WillRaise
  | Some acc' =>
      (forall r, In r records -> classify r <> WillRaise) /\
      (((forall r, In r records -> classify r = WillSkip) /\ acc' = acc) \/
       ((exists r, In r records /\ classify r = WillFold) /\
        user_invocations acc' <> []))
  end.
Proof.
  revert acc. induction records as [|r rs IH]; intros acc; simpl.
  - split; [easy|]. left. now split.
  - pose proof (process_record_shape acc r) as Hr.
    destruct (classify r) eqn:Hk.
    + rewrite Hr. specialize (IH acc).
      destruct (process_records acc rs) as [acc'|].
      * destruct IH as [Hno [[Hskip ->]|[(r' & Hin & Hf) Hne]]].
        -- split; [intros x [<-|Hx]; [congruence|auto]|].
           left. split; [|reflexivity]. intros x [<-|Hx]; auto.
        -- split; [intros x [<-|Hx]; [congruence|auto]|].
           right. split; [|assumption]. exists r'. split; [now right|assumption].
      * destruct IH as (r' & Hin & Hraise). exists r'. split; [now right|assumption].
    + rewrite Hr. exists r. split; [now left|assumption].
    + destruct Hr as (model & inv & it & ot & cost & cache & ->).
      match goal with |- context [process_records ?a rs] => specialize (IH a) end.
      destruct (process_records _ rs) as [acc'|].
      * destruct IH as [Hno Hcases].
        split; [intros x [<-|Hx]; [congruence|auto]|].
        right. split; [exists r; split; [now left|assumption]|].
        destruct Hcases as [[_ ->]|[_ Hne]]; [|assumption].
        apply set_not_empty.
      * destruct IH as (r' & Hin & Hraise). exists r'. split; [now right|assumption].
Qed.

(** X5: how a pass ends is read off the records one by one.  It raises
    exactly when some record, with identity, model id and integer counters,
    has a token count too large for [int / int]; it reports that there is no
    data exactly when every record is skipped (so also on no record at all);
    otherwise it returns data, and some record was folded. *)
Theorem pass_outcome (records : list LogRecord) :
  match _process_logs_insights_results records with
  | None => exists r, In r records /\ classify r = WillRaise
  | Some NoData => forall r, In r records -> classify r = WillSkip
  | Some (Data _) =>
      (forall r, In r records -> classify r <> WillRaise) /\
      (exists r, In r records /\ classify r = WillFold)
  end.
Proof.
  unfold _process_logs_insights_results.
  pose proof (process_records_ends records init) as H.
  destruct (process_records init records) as [acc|]; [|exact H].
  destruct H as [Hno Hcases]. cbn [option_map]. unfold finish.
  destruct (user_invocations acc) as [|kv rest] eqn:Hu.
  - destruct Hcases as [[Hskip _]|[_ Hne]]; [exact Hskip|now elim Hne].
  - split; [exact Hno|].
    destruct Hcases as [[_ ->]|[Hf _]]; [discriminate|exact Hf].
Qed.

(** *** What the accumulators keep *)

Lemma mem_of_keys {V W : Type} (d1 : Dict.t V) (d2 : Dict.t W) (k : string) :
  Dict.keys d1 = Dict.keys d2 -> Dict.mem k d1 = Dict.mem k d2.
Proof.
  intros Hk.
  destruct (Dict.mem k d1) eqn:H1, (Dict.mem k d2) eqn:H2; try reflexivity.
  - apply Dict.mem_keys_iff in H1. rewrite Hk in H1.
    apply Dict.mem_keys_iff in H1. congruence.
  - apply Dict.mem_keys_iff in H2. rewrite <- Hk in H2.
    apply Dict.mem_keys_iff in H2. congruence.
Qed.

Lemma keys_set_same {V W : Type} (d1 : Dict.t V) (d2 : Dict.t W)
    (k : string) (v1 : V) (v2 : W) :
  Dict.keys d1 = Dict.keys d2 ->
  Dict.keys (Dict.set d1 k v1) = Dict.keys (Dict.set d2 k v2).
Proof.
  intros Hk. rewrite !Dict.keys_set, (mem_of_keys d1 d2 k Hk), Hk. reflexivity.
Qed.

Lemma total_set (d : Dict.t Z) (k : string) (v : Z) :
  total (Dict.set d k v) = (total d - Dict.get_default d k 0 + v)%Z.
Proof.
  unfold total, Dict.values, Dict.get_default.
  induction d as [|[k' v'] d IH]; simpl; [lia|].
  destruct (String.eqb k k'); simpl; [lia|]. rewrite IH. lia.
Qed.

Lemma total_add_int (d : Dict.t Z) (k : string) (n : Z) :
  total (add_int d k n) = (total d + n)%Z.
Proof. unfold add_int. rewrite total_set. lia. Qed.

Lemma In_keys_set {V : Type} (d : Dict.t V) (k x : string) (v : V) :
  In x (Dict.keys (Dict.set d k v)) -> x = k \/ In x (Dict.keys d).
Proof.
  rewrite Dict.keys_set. destruct (Dict.mem k d); [now right|].
  intros H. apply in_app_or in H. destruct H as [H|[<-|[]]]; auto.
Qed.

Lemma aligned_init : aligned init.
Proof. constructor; try reflexivity; try apply NoDup_nil. intros user []. Qed.

Lemma aligned_folded (acc : Acc) (user model day : string)
    (invocations input output : Z) (cost : float) (cache : Dict.t string) :
  UserIdFacts.presentable user ->
  aligned acc ->
  aligned (folded acc user model day invocations input output cost cache).
Proof.
  intros Huser [].
  constructor; cbn [folded user_invocations daily_trend model_usage user_tokens
                    user_costs model_tokens model_costs model_invocations
                    daily_costs user_daily_costs user_model_costs
                    user_model_daily_costs total_events];
    unfold add_int, add_float, add_tokens, add_float2, add_float3.
  - now apply keys_set_same.
  - now apply keys_set_same.
  - now apply keys_set_same.
  - now apply keys_set_same.
  - now apply keys_set_same.
  - now apply keys_set_same.
  - now apply keys_set_same.
  - now rewrite al_model_invocations0.
  - now apply keys_set_same.
  - now apply Dict.set_NoDup.
  - now apply Dict.set_NoDup.
  - now apply Dict.set_NoDup.
  - rewrite total_set. lia.
  - rewrite total_set. lia.
  - rewrite total_set. lia.
  - intros x Hx. apply In_keys_set in Hx. destruct Hx as [->|Hx]; auto.
Qed.

Lemma process_records_aligned (records : list LogRecord) (acc acc' : Acc) :
  aligned acc -> process_records acc records = Some acc' -> aligned acc'.
Proof.
  revert acc. induction records as [|r rs IH]; intros acc Hal; simpl.
  - now intros [= <-].
  - pose proof (process_record_shape acc r) as Hr.
    destruct (classify r).
    + rewrite Hr. now apply IH.
    + rewrite Hr. discriminate.
    + destruct Hr as (model & inv & it & ot & cost & cache & ->).
      apply IH. apply aligned_folded; [|assumption].
      apply UserIdFacts.normalize_username_presentable.
Qed.

(** *** The dictionaries of the result *)

Lemma keys_filter_keys {V : Type} (keep : string -> bool) (d : Dict.t V) :
  Dict.keys (Dict.filter_keys keep d) = filter keep (Dict.keys d).
Proof.
  unfold Dict.keys, Dict.filter_keys.
  induction d as [|[k v] d IH]; simpl; [reflexivity|].
  destruct (keep k); simpl; now rewrite IH.
Qed.

Lemma keys_map_values {V W : Type} (f : V -> W) (d : Dict.t V) :
  Dict.keys (Dict.map_values f d) = Dict.keys d.
Proof.
  unfold Dict.keys, Dict.map_values. rewrite map_map. reflexivity.
Qed.

Lemma keys_insert_item {V : Type} (kv : string * V) (l : Dict.t V) :
  Dict.keys (Dict.insert_item kv l) = CostMatrix.insert_sorted (fst kv) (Dict.keys l).
Proof.
  induction l as [|x l IH]; simpl; [reflexivity|].
  destruct (String.leb (fst kv) (fst x)); simpl; [reflexivity|now rewrite IH].
Qed.

(** [dict(sorted(d.items()))] has the keys of [d], sorted. *)
Lemma keys_sorted_items {V : Type} (d : Dict.t V) :
  Dict.keys (Dict.sorted_items d) = CostMatrix.sorted (Dict.keys d).
Proof.
  unfold Dict.sorted_items, CostMatrix.sorted.
  induction d as [|x d IH]; simpl; [reflexivity|].
  now rewrite keys_insert_item, IH.
Qed.

Lemma total_insert_item (kv : string * Z) (l : Dict.t Z) :
  total (Dict.insert_item kv l) = (snd kv + total l)%Z.
Proof.
  unfold total, Dict.values. induction l as [|x l IH]; simpl; [reflexivity|].
  destruct (String.leb (fst kv) (fst x)); simpl; [reflexivity|].
  rewrite IH. lia.
Qed.

Lemma total_sorted_items (d : Dict.t Z) : total (Dict.sorted_items d) = total d.
Proof.
  unfold Dict.sorted_items. induction d as [|x d IH]; [reflexivity|].
  cbn [fold_right]. rewrite total_insert_item, IH. reflexivity.
Qed.

Lemma filter_unknown_absent {V : Type} (d : Dict.t V) :
  ~ In "Unknown"%string (Dict.keys d) -> Dict.filter_keys not_unknown d = d.
Proof.
  unfold Dict.filter_keys, Dict.keys, not_unknown.
  induction d as [|[k v] d IH]; intros Hk; simpl; [reflexivity|].
  destruct (String.eqb_spec k "Unknown") as [->|Hne]; simpl.
  - exfalso. apply Hk. now left.
  - f_equal. apply IH. intros Hin. apply Hk. now right.
Qed.

Lemma total_filter_unknown (d : Dict.t Z) :
  NoDup (Dict.keys d) ->
  total (Dict.filter_keys not_unknown d)
  = (total d - Dict.get_default d "Unknown" 0)%Z.
Proof.
  induction d as [|[k v] d IH]; intros Hnd; [reflexivity|].
  inversion Hnd as [|? ? Hk Hd]; subst.
  unfold Dict.filter_keys, not_unknown. cbn [filter fst].
  unfold Dict.get_default. cbn [Dict.get].
  destruct (String.eqb_spec k "Unknown") as [->|Hne].
  - rewrite String.eqb_refl. cbn [negb].
    change (filter _ d) with (Dict.filter_keys not_unknown d).
    rewrite (filter_unknown_absent d Hk).
    unfold total, Dict.values. simpl. lia.
  - assert (E : String.eqb "Unknown" k = false)
      by (apply String.eqb_neq; congruence).
    rewrite E. cbn [negb].
    change (filter _ d) with (Dict.filter_keys not_unknown d).
    specialize (IH Hd). unfold Dict.get_default in IH.
    unfold total, Dict.values in *. simpl. rewrite IH. lia.
Qed.

Lemma result_data (records : list LogRecord) (s : Summary.t) :
  _process_logs_insights_results records = Some (Data s) ->
  exists acc,
    process_records init records = Some acc /\ aligned acc /\
    Summary.user_invocations s = Dict.filter_keys not_unknown (user_invocations acc) /\
    Summary.user_tokens s = Dict.filter_keys not_unknown (user_tokens acc) /\
    Summary.user_costs s = Dict.filter_keys not_unknown (user_costs acc) /\
    Summary.user_daily_costs s
    = Dict.map_values Dict.sorted_items
        (Dict.filter_keys not_unknown (user_daily_costs acc)) /\
    Summary.user_model_costs s
    = Dict.map_values (Dict.filter_keys not_unknown)
        (Dict.filter_keys not_unknown (user_model_costs acc)) /\
    Summary.model_usage s = Dict.filter_keys not_unknown (model_usage acc) /\
    Summary.model_tokens s = Dict.filter_keys not_unknown (model_tokens acc) /\
    Summary.model_costs s = Dict.filter_keys not_unknown (model_costs acc) /\
    Summary.model_invocations s
    = Dict.filter_keys not_unknown (model_invocations acc) /\
    Summary.daily_trend s = Dict.sorted_items (daily_trend acc) /\
    Summary.daily_costs s = Dict.sorted_items (daily_costs acc) /\
    Summary.total_events s = total_events acc.
Proof.
  unfold _process_logs_insights_results.
  destruct (process_records init records) as [acc|] eqn:Hrun; [|discriminate].
  cbn [option_map]. intros [= Hfin]. exists acc.
  split; [reflexivity|].
  split; [exact (process_records_aligned records init acc aligned_init Hrun)|].
  unfold finish in Hfin.
  set (u := user_invocations acc) in Hfin at 1.
  destruct u; [discriminate|].
  injection Hfin as <-. repeat split; reflexivity.
Qed.

(** X6: the counts of a result agree with one another.  [total_events] is
    the sum of the invocations per day; [model_invocations] is
    [model_usage]; and the invocations per user, and per model, add up to
    [total_events] less what the loop has booked under the name
    ['Unknown'], which the result leaves out. *)
Theorem counts_cross_check (records : list LogRecord) (s : Summary.t) :
  _process_logs_insights_results records = Some (Data s) ->
  Summary.total_events s = total (Summary.daily_trend s) /\
  Summary.model_invocations s = Summary.model_usage s /\
  exists acc,
    process_records init records = Some acc /\
    total (Summary.user_invocations s)
    = (Summary.total_events s
       - Dict.get_default (user_invocations acc) "Unknown" 0)%Z /\
    total (Summary.model_usage s)
    = (Summary.total_events s
       - Dict.get_default (model_usage acc) "Unknown" 0)%Z.
Proof.
  intros Hres.
  destruct (result_data records s Hres)
    as (acc & Hrun & Hal & Hui & _ & _ & _ & _ & Hmu & _ & _ & Hmi & Hdt & _ & Hte).
  destruct Hal.
  split; [now rewrite Hdt, total_sorted_items, Hte|].
  split; [now rewrite Hmi, Hmu, al_model_invocations0|].
  exists acc. split; [assumption|].
  rewrite Hui, Hmu, Hte, !total_filter_unknown by assumption.
  split; [now rewrite al_total_users0|now rewrite al_total_models0].
Qed.

Lemma counts_cross_check_witness :
  exists s,
    _process_logs_insights_results CostMatrix.tiny_usage = Some (Data s) /\
    Summary.total_events s = total (Summary.daily_trend s) /\
    Summary.model_invocations s = Summary.model_usage s /\
    Summary.total_events s = 3%Z.
Proof.
  eexists. split; [vm_compute; reflexivity|].
  match goal with |- Summary.total_events ?x = _ /\ _ =>
    destruct (counts_cross_check CostMatrix.tiny_usage x) as (Hdays & Hmodels & _)
  end.
  - vm_compute. reflexivity.
  - split; [exact Hdays|]. split; [exact Hmodels|reflexivity].
Defined.

(** X7: the dictionaries of a result line up.  Those keyed by user have
    the same users in the same order, those keyed by model the same
    models, those keyed by day the same days, in increasing order; no key
    stands twice, and ['Unknown'] is neither a user nor a model. *)
Theorem result_dictionaries_line_up (records : list LogRecord) (s : Summary.t) :
  _process_logs_insights_results records = Some (Data s) ->
  (Dict.keys (Summary.user_tokens s) = Dict.keys (Summary.user_invocations s) /\
   Dict.keys (Summary.user_costs s) = Dict.keys (Summary.user_invocations s) /\
   Dict.keys (Summary.user_daily_costs s) = Dict.keys (Summary.user_invocations s) /\
   Dict.keys (Summary.user_model_costs s) = Dict.keys (Summary.user_invocations s)) /\
  (Dict.keys (Summary.model_tokens s) = Dict.keys (Summary.model_usage s) /\
   Dict.keys (Summary.model_costs s) = Dict.keys (Summary.model_usage s) /\
   Dict.keys (Summary.model_invocations s) = Dict.keys (Summary.model_usage s)) /\
  (Dict.keys (Summary.daily_costs s) = Dict.keys (Summary.daily_trend s) /\
   Sorted CostMatrix.string_le (Dict.keys (Summary.daily_trend s))) /\
  (NoDup (Dict.keys (Summary.user_invocations s)) /\
   NoDup (Dict.keys (Summary.model_usage s)) /\
   NoDup (Dict.keys (Summary.daily_trend s))) /\
  (~ In "Unknown"%string (Dict.keys (Summary.user_invocations s)) /\
   ~ In "Unknown"%string (Dict.keys (Summary.model_usage s))).
Proof.
  intros Hres.
  destruct (result_data records s Hres)
    as (acc & Hrun & Hal & -> & -> & -> & -> & -> & -> & -> & -> & -> & -> & -> & _).
  destruct Hal.
  rewrite !keys_map_values, !keys_filter_keys, !keys_sorted_items.
  rewrite al_user_tokens0, al_user_costs0, al_user_daily0, al_user_model0,
    al_model_tokens0, al_model_costs0, al_model_invocations0, al_daily_costs0.
  assert (Hunk : forall l, ~ In "Unknown"%string (filter not_unknown l)).
  { intros l Hin. apply filter_In in Hin. destruct Hin as [_ H]. discriminate. }
  repeat split; try apply NoDup_filter; try assumption; try apply Hunk.
  - apply CostMatrix.sorted_Sorted.
  - apply (Permutation_NoDup (Permutation_sym (CostMatrix.sorted_perm _))).
    assumption.
Qed.

Lemma result_dictionaries_line_up_witness :
  exists s,
    _process_logs_insights_results CostMatrix.tiny_usage = Some (Data s) /\
    Dict.keys (Summary.user_costs s) = Dict.keys (Summary.user_invocations s) /\
    Dict.keys (Summary.model_costs s) = Dict.keys (Summary.model_usage s) /\
    NoDup (Dict.keys (Summary.model_usage s)).
Proof.
  eexists. split; [vm_compute; reflexivity|].
  match goal with |- Dict.keys (Summary.user_costs ?x) = _ /\ _ =>
    destruct (result_dictionaries_line_up CostMatrix.tiny_usage x)
      as ((_ & Hu & _) & (_ & Hm & _) & _ & (_ & Hn & _) & _)
  end.
  - vm_compute. reflexivity.
  - split; [exact Hu|]. split; [exact Hm|exact Hn].
Defined.

(** X8: no user of a result looks like an ARN or is an alias.
    [normalize_username] returns, whatever the raw name, a name without
    [':'], that does not start with ['arn'] and is none of the aliases of
    [USER_MAP]; and every user of a result is such a name. *)
Theorem users_are_presentable :
  (forall raw_user,
      UserIdFacts.presentable (UserId.normalize_username raw_user)) /\
  (forall records s user,
      _process_logs_insights_results records = Some (Data s) ->
      In user (Dict.keys (Summary.user_invocations s)) ->
      UserIdFacts.presentable user).
Proof.
  split; [apply UserIdFacts.normalize_username_presentable|].
  intros records s user Hres Hin.
  destruct (result_data records s Hres) as (acc & _ & Hal & Hui & _).
  rewrite Hui, keys_filter_keys in Hin. apply filter_In in Hin.
  destruct Hin as [Hin _]. now apply (al_presentable acc Hal).
Qed.

Lemma users_are_presentable_witness :
  exists s,
    _process_logs_insights_results [sample_record] = Some (Data s) /\
    In "peterdir"%string (Dict.keys (Summary.user_invocations s)) /\
    UserIdFacts.presentable "peterdir".
Proof.
  eexists. split; [vm_compute; reflexivity|].
  split; [left; reflexivity|].
  eapply (proj2 users_are_presentable [sample_record]).
  - vm_compute. reflexivity.
  - left. reflexivity.
Defined.

End AggregationFacts.

(* ================================================================== *)
(** ** More on the query cache and the polling loop *)

Module QueryFacts.
Import Query.
#[local] Set Warnings "-inexact-float".
#[local] Open Scope float_scope.

(** *** The cache keys *)

Lemma _get_cache_key_inj (days days' : Z) :
  _get_cache_key days = _get_cache_key days' -> days = days'.
Proof.
  unfold _get_cache_key. intros H. simpl in H. injection H as H.
  apply DecimalZ.to_int_inj.
  assert (Hs : Some (Z.to_int days) = Some (Z.to_int days')).
  { rewrite <- (NilEmpty.isi (Z.to_int days)), <- (NilEmpty.isi (Z.to_int days')).
    now rewrite H. }
  now injection Hs.
Qed.

(** X9: the cache helpers, taken together.  An entry cached for a window is
    read back as long as less than [_cache_ttl] seconds have passed, and is
    no longer returned after that; and caching for one window changes
    nothing of what is read for another window. *)
Theorem cache_entry_round_trip (days : Z) (qid : nat) (st : string)
    (now later : float) (w : World) :
  (PrimFloat.ltb (later - now) _cache_ttl = true ->
   _get_cached_query_id days later (_cache_query_id days qid st now w)
   = Some {| query_id := qid; status := st; timestamp := now |}) /\
  (PrimFloat.ltb (later - now) _cache_ttl = false ->
   _get_cached_query_id days later (_cache_query_id days qid st now w) = None) /\
  (forall other,
      other <> days ->
      _get_cached_query_id other later (_cache_query_id days qid st now w)
      = _get_cached_query_id other later w).
Proof.
  unfold _get_cached_query_id, _cache_query_id. cbn [_query_cache].
  repeat split.
  - intros Hfresh. rewrite Dict.get_set_eq. cbn [timestamp]. now rewrite Hfresh.
  - intros Hstale. rewrite Dict.get_set_eq. cbn [timestamp]. now rewrite Hstale.
  - intros other Hother. rewrite Dict.get_set_ne; [reflexivity|].
    intros Hkey. apply Hother. symmetry. now apply _get_cache_key_inj.
Qed.

Lemma cache_entry_round_trip_witness :
  _get_cached_query_id 7 1700000599 (_cache_query_id 7 0 "Running" 1700000000 empty_world)
  = Some {| query_id := 0; status := "Running"; timestamp := 1700000000 |} /\
  _get_cached_query_id 7 1700000600 (_cache_query_id 7 0 "Running" 1700000000 empty_world)
  = None /\
  _get_cached_query_id 30 1700000001 (_cache_query_id 7 0 "Running" 1700000000 empty_world)
  = _get_cached_query_id 30 1700000001 empty_world.
Proof.
  split; [|split].
  - apply (proj1 (cache_entry_round_trip 7 0 "Running" 1700000000 1700000599 empty_world)).
    reflexivity.
  - apply (proj1 (proj2 (cache_entry_round_trip 7 0 "Running" 1700000000 1700000600 empty_world))).
    reflexivity.
  - apply (proj2 (proj2 (cache_entry_round_trip 7 0 "Running" 1700000000 1700000001 empty_world))).
    discriminate.
Defined.

(** *** The polling loop *)

Section Polling.
Variable svc : Service.
Variable qid : nat.

Lemma poll_loop_waiting (remaining elapsed : nat) :
  (forall j, (elapsed <= j < elapsed + remaining)%nat ->
             poll_once svc qid j = PollAgain) ->
  poll_loop svc qid remaining elapsed = FetchFailed QueryTimeout.
Proof.
  revert elapsed. induction remaining as [|remaining IH]; intros elapsed Hwait.
  - reflexivity.
  - cbn [poll_loop]. rewrite (Hwait elapsed) by lia.
    apply IH. intros j Hj. apply Hwait. lia.
Qed.

Lemma poll_loop_answer (remaining elapsed k : nat) :
  (elapsed <= k < elapsed + remaining)%nat ->
  (forall j, (elapsed <= j < k)%nat -> poll_once svc qid j = PollAgain) ->
  poll_once svc qid k <> PollAgain ->
  poll_loop svc qid remaining elapsed
  = match poll_once svc qid k with
    | PollComplete rows => conclude rows
    | PollRaise why => FetchFailed why
    | PollAgain => FetchFailed QueryTimeout
    end.
Proof.
  revert elapsed. induction remaining as [|remaining IH]; intros elapsed Hk Hwait Hans.
  - lia.
  - cbn [poll_loop]. destruct (Nat.eq_dec elapsed k) as [->|Hne].
    + destruct (poll_once svc qid k); [reflexivity|reflexivity|now elim Hans].
    + rewrite (Hwait elapsed) by lia.
      apply IH; [lia| |assumption]. intros j Hj. apply Hwait. lia.
Qed.

End Polling.

(** X10: a call whose dates can be computed and whose query the service
    accepts polls that query once a second, sixty times at most.  The first answer that is not a running status decides the
    result: the rows of a ['Complete'] answer are aggregated, ['Failed'] and
    ['Cancelled'] give the error; sixty running answers give the timeout,
    whatever the service would have answered later. *)
Theorem polling_is_bounded (svc : Service) (days : Z) (now : float) (w : World) :
  window days now <> None ->
  start_error svc (List.length (started w)) = None ->
  let qid := List.length (started w) in
  ((forall j, (j < max_wait)%nat -> poll_once svc qid j = PollAgain) ->
   fst (get_bedrock_usage svc days now w) = FetchFailed QueryTimeout) /\
  (forall k,
      (k < max_wait)%nat ->
      (forall j, (j < k)%nat -> poll_once svc qid j = PollAgain) ->
      poll_once svc qid k <> PollAgain ->
      fst (get_bedrock_usage svc days now w)
      = match poll_once svc qid k with
        | PollComplete rows => conclude rows
        | PollRaise why => FetchFailed why
        | PollAgain => FetchFailed QueryTimeout
        end).
Proof.
  intros Hdates Hok qid. unfold get_bedrock_usage, start_query.
  destruct (window days now); [|contradiction]. rewrite Hok. cbn [fst].
  split.
  - intros Hwait. apply poll_loop_waiting. intros j Hj. apply Hwait. lia.
  - intros k Hk Hwait Hans. apply poll_loop_answer; [lia| |assumption].
    intros j Hj. apply Hwait. lia.
Qed.

(** A service whose query fails at the third poll *)
Definition failing_service : Service :=
  {| start_error := fun _ => None;
     query_results := fun _ k =>
       if (k <? 2)%nat then ("Running"%string, [])
       else ("Failed"%string, []) |}.

Lemma polling_is_bounded_witness :
  fst (get_bedrock_usage slow_service 7 1700000000 empty_world)
  = FetchFailed QueryTimeout /\
  fst (get_bedrock_usage failing_service 7 1700000000 empty_world)
  = FetchFailed QueryFailed.
Proof.
  split.
  - apply (proj1 (polling_is_bounded slow_service 7 1700000000 empty_world
                    ltac:(vm_compute; discriminate) eq_refl)).
    intros j _. reflexivity.
  - apply (proj2 (polling_is_bounded failing_service 7 1700000000 empty_world
                    ltac:(vm_compute; discriminate) eq_refl)
             2%nat).
    + unfold max_wait. lia.
    + intros j Hj. destruct j as [|[|j]]; [reflexivity|reflexivity|lia].
    + discriminate.
Defined.

End QueryFacts.

(* ================================================================== *)
(** ** More on the cost matrix *)

Module CostMatrixFacts.
Import CostMatrix.
#[local] Set Warnings "-inexact-float".
#[local] Open Scope float_scope.

Lemma sorted_In (l : list string) (x : string) : In x (sorted l) <-> In x l.
Proof.
  split; apply Permutation_in;
    [apply sorted_perm | apply Permutation_sym, sorted_perm].
Qed.

Lemma sorted_set_In (l : list string) (x : string) : In x (sorted_set l) <-> In x l.
Proof. unfold sorted_set. rewrite sorted_In. apply nodup_In. Qed.

Lemma mem_fold_set {V : Type} (f : string -> V) (l : list string) (k : string) :
  Dict.mem k (fold_left (fun d x => Dict.set d x (f x)) l Dict.empty) = true
  <-> In k l.
Proof.
  unfold Dict.mem. destruct (in_dec string_dec k l) as [Hin|Hout].
  - rewrite get_fold_set by assumption. now split.
  - rewrite get_fold_set_other by assumption. simpl. split; [discriminate|contradiction].
Qed.

Lemma mem_fold_set_indexed {V : Type} (g : nat -> V) (l : list string) (k : string) :
  NoDup l ->
  Dict.mem k (fold_left (fun d '(j, x) => Dict.set d x (g j)) (enumerate l) Dict.empty)
  = true <-> In k l.
Proof.
  intros Hnd. unfold Dict.mem. destruct (in_dec string_dec k l) as [Hin|Hout].
  - destruct (In_nth_error l k Hin) as [j Hj].
    rewrite (get_fold_set_indexed g (enumerate l) Dict.empty j k).
    + now split.
    + now rewrite enumerate_snd.
    + now apply enumerate_In.
  - rewrite get_fold_set_indexed_other by now rewrite enumerate_snd.
    simpl. split; [discriminate|contradiction].
Qed.

Lemma of_items_map {V : Type} (f : string -> V) (l : list string) (d : Dict.t V) :
  fold_left (fun d kv => Dict.set d (fst kv) (snd kv)) (map (fun x => (x, f x)) l) d
  = fold_left (fun d x => Dict.set d x (f x)) l d.
Proof. revert d. induction l as [|x l IH]; intros d; simpl; [reflexivity|apply IH]. Qed.

(** X11: the shape of the matrix.  Whatever the costs: the users are the
    users of the cost map in increasing order; the models are the models
    some user has a cost for, each once, in increasing order; there is one
    row for each user and one cell in each row for each model; and the
    user totals, the model totals and the display names have entries for
    these users and models and for nothing else. *)
Theorem cost_matrix_is_rectangular (user_model_costs : Dict.t (Dict.t float))
    (total : float) :
  let m := cost_matrix user_model_costs total in
  Permutation (users m) (Dict.keys user_model_costs) /\
  Sorted string_le (users m) /\
  (forall model,
      In model (models m) <->
      exists user_costs,
        In user_costs (Dict.values user_model_costs) /\
        In model (Dict.keys user_costs)) /\
  NoDup (models m) /\
  Sorted string_le (models m) /\
  length (data m) = length (users m) /\
  (forall row, In row (data m) -> length row = length (models m)) /\
  (forall user, Dict.mem user (user_totals m) = true <-> In user (users m)) /\
  (forall model, Dict.mem model (model_totals m) = true <-> In model (models m)) /\
  (forall model,
      Dict.get (model_display_names m) model
      = if in_dec string_dec model (models m)
        then Some (ModelId.get_model_display_name model) else None).
Proof.
  unfold cost_matrix. rewrite fill_rows_spec.
  cbn [users models data user_totals model_totals total_cost model_display_names].
  set (all_users := sorted (Dict.keys user_model_costs)).
  set (all_models := sorted_set _).
  split; [apply sorted_perm|].
  split; [apply sorted_Sorted|].
  split.
  { intros model. unfold all_models. rewrite sorted_set_In, in_flat_map. reflexivity. }
  split; [apply sorted_set_NoDup|].
  split; [apply sorted_Sorted|].
  split; [apply length_map|].
  split.
  { intros row Hrow. apply in_map_iff in Hrow. destruct Hrow as (user & <- & _).
    unfold row_of. apply length_map. }
  split; [intros user; apply mem_fold_set|].
  split.
  { intros model. unfold fill_model_totals.
    apply (mem_fold_set_indexed
             (fun j => PyFloat.round
                (column_sum (map (row_of user_model_costs all_models) all_users)
                            (length all_users) j) 4)).
    apply sorted_set_NoDup. }
  intros model. unfold Dict.of_items. rewrite of_items_map.
  destruct (in_dec string_dec model all_models) as [Hin|Hout].
  - now apply get_fold_set.
  - now rewrite get_fold_set_other.
Qed.

End CostMatrixFacts.

(* ================================================================== *)
(** ** Configuration and the subnet check *)

Module Access.
Import PyStr.

(** *** String methods *)

Fixpoint lstrip_ws (s : string) : string :=
  match s with
  | EmptyString => EmptyString
  | String c s' => if is_space c then lstrip_ws s' else s
  end.

Fixpoint rstrip_ws (s : string) : string :=
  match s with
  | EmptyString => EmptyString
  | String c s' =>
      match rstrip_ws s' with
      | EmptyString => if is_space c then EmptyString else String c EmptyString
      | r => String c r
      end
  end.

(** [s.strip()] *)
Definition strip (s : string) : string := rstrip_ws (lstrip_ws s).

(** [s.split(sep)] for a separator of one character; [cur] is the piece
    being read. *)
Fixpoint split_from (sep : ascii) (cur : string) (s : string) : list string :=
  match s with
  | EmptyString => [cur]
  | String c s' =>
      if Ascii.eqb c sep then cur :: split_from sep "" s'
      else split_from sep (cur ++ String c "") s'
  end.

Definition split (sep : ascii) (s : string) : list string := split_from sep "" s.

(** *** [get_config] *)

(** [SCRIPT_NAME] is computed from the name of the script file when the
    module is loaded, and [environ] is [os.environ]. *)
Definition get_config (SCRIPT_NAME : string) (environ : Dict.t string)
    (variable_name : string) (default : option string) : option string :=
  let specific_var := variable_name ++ "_" ++ SCRIPT_NAME in
  if Dict.mem specific_var environ then Dict.get environ specific_var
  else if Dict.mem variable_name environ then Dict.get environ variable_name
  else default.

(** [SUBNETS_ONLY = get_config('SUBNETS_ONLY')] *)
Definition SUBNETS_ONLY (SCRIPT_NAME : string) (environ : Dict.t string)
  : option string :=
  get_config SCRIPT_NAME environ "SUBNETS_ONLY" None.

(** *** [check_subnet_access] *)

(** What the check reads of the request: the [X-Forwarded-For] header and
    [request.remote_addr] *)
Record Request : Type := {
  x_forwarded_for : option string;
  remote_addr : option string
}.

(** The module [ipaddress]: [ip_address(s)] and
    [ip_network(s, strict=False)], [None] for their [ValueError], and
    [address in network]. *)
Record IpLibrary : Type := {
  Address : Type;
  Network : Type;
  ip_address : string -> option Address;
  ip_network : string -> option Network;
  address_in : Address -> Network -> bool
}.

(** [True], or the page of status 403 with the two strings it shows *)
Inductive Verdict : Type :=
| Allowed
| Forbidden (client_ip allowed_subnets : string).

(** [client_ip] as it stands before [if not client_ip] *)
Definition client_ip_of (req : Request) : option string :=
  let client_ip :=
    match x_forwarded_for req with
    | Some value => Some value
    | None => remote_addr req
    end in
  match client_ip with
  | Some ip =>
      if negb (String.eqb ip "") && contains "," ip
      then Some (strip (first_segment "," ip))
      else Some ip
  | None => None
  end.

(** [allowed_subnets] as it stands before the loop *)
Definition allowed_subnets_of (subnets_only : string) : list string :=
  let allowed_subnets :=
    map strip
        (filter (fun s => negb (String.eqb (strip s) "")) (split "," subnets_only)) in
  if negb (mem "127.0.0.1/8" allowed_subnets)
     && negb (mem "127.0.0.0/8" allowed_subnets)
  then (allowed_subnets ++ ["127.0.0.1/8"])%list
  else allowed_subnets.

(** The body of [for subnet_str in allowed_subnets]: whether the address
    is in this subnet; a subnet that does not parse is passed over. *)
Definition in_subnet (lib : IpLibrary) (client_ip_obj : Address lib)
    (subnet_str : string) : bool :=
  match ip_network lib subnet_str with
  | Some allowed_network => address_in lib client_ip_obj allowed_network
  | None => false
  end.

(** [check_subnet_access()].  An exception in the outer [try] is the
    [ValueError] of [ip_address], after which access is allowed. *)
Definition check_subnet_access (lib : IpLibrary) (subnets_only : option string)
    (req : Request) : Verdict :=
  match subnets_only with
  | None | Some EmptyString => Allowed
  | Some subnets =>
      match client_ip_of req with
      | None | Some EmptyString =>
          Forbidden "unknown" "Unable to determine your IP"
      | Some client_ip =>
          match ip_address lib client_ip with
          | None => Allowed
          | Some client_ip_obj =>
              let allowed_subnets := allowed_subnets_of subnets in
              if existsb (in_subnet lib client_ip_obj) allowed_subnets
              then Allowed
              else Forbidden client_ip (join ", " allowed_subnets)
          end
      end
  end.

(** *** Addresses to try the check on *)

(** The IPv4 addresses of [ipaddress] with networks written with a prefix
    length.  What is proved of the check holds for every library; this one
    provides inputs. *)
Module Ipv4.

Fixpoint digits (acc : N) (s : string) : option N :=
  match s with
  | EmptyString => Some acc
  | String c s' =>
      if is_digit c
      then digits (10 * acc + N.of_nat (nat_of_ascii c - 48)) s'
      else None
  end.

(** An octet: one to three digits, no leading zero, at most 255 *)
Definition octet (s : string) : option N :=
  match s with
  | EmptyString => None
  | String c s' =>
      if (3 <? String.length s)%nat then None
      else if Ascii.eqb c "0" && negb (String.eqb s' "") then None
      else match digits 0 s with
           | Some n => if (n <=? 255)%N then Some n else None
           | None => None
           end
  end.

Definition address (s : string) : option N :=
  match split "." s with
  | [a; b; c; d] =>
      match octet a, octet b, octet c, octet d with
      | Some a, Some b, Some c, Some d =>
          Some (N.shiftl a 24 + N.shiftl b 16 + N.shiftl c 8 + d)%N
      | _, _, _, _ => None
      end
  | _ => None
  end.

Definition prefix_length (s : string) : option N :=
  match s with
  | EmptyString => None
  | _ => match digits 0 s with
         | Some n => if (n <=? 32)%N then Some n else None
         | None => None
         end
  end.

(** A network: the bits of the address that the prefix keeps, and the
    length of the prefix *)
Definition network (s : string) : option (N * N) :=
  match split "/" s with
  | [a] => match address a with Some a => Some (a, 32%N) | None => None end
  | [a; p] =>
      match address a, prefix_length p with
      | Some a, Some p => Some (N.shiftr a (32 - p), p)
      | _, _ => None
      end
  | _ => None
  end.

Definition contains_address (a : N) (net : N * N) : bool :=
  N.eqb (N.shiftr a (32 - snd net)) (fst net).

Definition library : IpLibrary :=
  {| Address := N;
     Network := (N * N)%type;
     ip_address := address;
     ip_network := network;
     address_in := contains_address |}.

End Ipv4.

End Access.

(* ================================================================== *)
(** ** Who the subnet check lets in *)

Module AccessFacts.
Import PyStr Access.

Lemma listed_mem_In (x : string) (l : list string) : mem x l = true <-> In x l.
Proof.
  unfold mem. rewrite existsb_exists. split.
  - intros (y & Hy & E). apply String.eqb_eq in E. now subst.
  - intros H. exists x. split; [assumption|apply String.eqb_refl].
Qed.

(** [s] is written in the setting: it is what is left of one of the pieces
    between the commas once the white space around it is taken away, and it
    is not empty. *)
Definition written (subnets_only s : string) : Prop :=
  s <> "" /\ exists piece, In piece (split "," subnets_only) /\ strip piece = s.

(** The subnets the check goes through: the written ones, and the loopback
    network when it is written in neither of its two spellings. *)
Definition listed (subnets_only s : string) : Prop :=
  written subnets_only s \/
  (s = "127.0.0.1/8" /\
   ~ written subnets_only "127.0.0.1/8" /\ ~ written subnets_only "127.0.0.0/8").

Lemma In_written (subnets_only s : string) :
  In s (map strip
            (filter (fun s => negb (String.eqb (strip s) "")) (split "," subnets_only)))
  <-> written subnets_only s.
Proof.
  unfold written. rewrite in_map_iff. split.
  - intros (piece & <- & Hin). apply filter_In in Hin. destruct Hin as [Hin Hne].
    split.
    + intros E. rewrite E in Hne. discriminate.
    + now exists piece.
  - intros (Hne & piece & Hin & <-). exists piece. split; [reflexivity|].
    apply filter_In. split; [assumption|].
    destruct (String.eqb_spec (strip piece) ""); [contradiction|reflexivity].
Qed.

Lemma allowed_subnets_listed (subnets_only s : string) :
  In s (allowed_subnets_of subnets_only) <-> listed subnets_only s.
Proof.
  unfold allowed_subnets_of, listed.
  set (l := map strip _).
  assert (Hl : forall x, In x l <-> written subnets_only x)
    by (intros x; apply In_written).
  destruct (mem "127.0.0.1/8" l) eqn:H1; cbn [negb andb].
  - apply listed_mem_In, Hl in H1. rewrite Hl. split; [now left|].
    intros [H|(_ & H & _)]; [assumption|contradiction].
  - destruct (mem "127.0.0.0/8" l) eqn:H0; cbn [negb].
    + apply listed_mem_In, Hl in H0. rewrite Hl. split; [now left|].
      intros [H|(_ & _ & H)]; [assumption|contradiction].
    + assert (N1 : ~ written subnets_only "127.0.0.1/8").
      { intros H. apply Hl, listed_mem_In in H. congruence. }
      assert (N0 : ~ written subnets_only "127.0.0.0/8").
      { intros H. apply Hl, listed_mem_In in H. congruence. }
      rewrite in_app_iff, Hl. split.
      * intros [H|[<-|[]]]; [now left|now right].
      * intros [H|(-> & _)]; [now left|right; now left].
Qed.

Lemma loopback_listed (subnets_only : string) :
  exists s,
    (s = "127.0.0.1/8" \/ s = "127.0.0.0/8") /\ In s (allowed_subnets_of subnets_only).
Proof.
  unfold allowed_subnets_of. set (l := map strip _).
  destruct (mem "127.0.0.1/8" l) eqn:H1; cbn [negb andb].
  - exists "127.0.0.1/8". split; [now left|now apply listed_mem_In].
  - destruct (mem "127.0.0.0/8" l) eqn:H0; cbn [negb].
    + exists "127.0.0.0/8". split; [now right|now apply listed_mem_In].
    + exists "127.0.0.1/8". split; [now left|]. apply in_app_iff. right. now left.
Qed.

Lemma in_some_subnet (lib : IpLibrary) (addr : Address lib) (l : list string) :
  existsb (in_subnet lib addr) l = true <->
  exists s net, In s l /\ ip_network lib s = Some net /\ address_in lib addr net = true.
Proof.
  rewrite existsb_exists. unfold in_subnet. split.
  - intros (s & Hin & H). destruct (ip_network lib s) as [net|] eqn:E; [|discriminate].
    now exists s, net.
  - intros (s & net & Hin & E & H). exists s. split; [assumption|]. now rewrite E.
Qed.

(** The check once a restriction is set and the client address is known *)
Lemma check_with_address (lib : IpLibrary) (c : ascii) (subnets client_ip : string)
    (req : Request) :
  client_ip_of req = Some client_ip ->
  client_ip <> "" ->
  check_subnet_access lib (Some (String c subnets)) req
  = match ip_address lib client_ip with
    | None => Allowed
    | Some addr =>
        if existsb (in_subnet lib addr) (allowed_subnets_of (String c subnets))
        then Allowed
        else Forbidden client_ip (join ", " (allowed_subnets_of (String c subnets)))
    end.
Proof.
  intros Hip Hne. unfold check_subnet_access. rewrite Hip.
  destruct client_ip; [contradiction|reflexivity].
Qed.

(** X12: who is let in.  With no setting, or an empty one, everybody is.
    With a setting, a request is let in exactly when it has a client
    address (the first entry of its [X-Forwarded-For] header or, without
    the header, its remote address) and this address either is not an IP
    address at all, or lies in a subnet that the check goes through: a
    subnet written in the setting, or the loopback network. *)
Theorem access_granted_iff (lib : IpLibrary) (subnets_only : option string)
    (req : Request) :
  check_subnet_access lib subnets_only req = Allowed <->
  match subnets_only with
  | None => True
  | Some subnets =>
      subnets = "" \/
      exists client_ip,
        client_ip_of req = Some client_ip /\ client_ip <> "" /\
        match ip_address lib client_ip with
        | None => True
        | Some addr =>
            exists s net,
              listed subnets s /\ ip_network lib s = Some net /\
              address_in lib addr net = true
        end
  end.
Proof.
  destruct subnets_only as [[|c subnets]|]; [now split; auto|..|now split].
  destruct (client_ip_of req) as [[|d ip]|] eqn:Hip.
  - unfold check_subnet_access. rewrite Hip. split; [discriminate|].
    intros [H|(ip & [= <-] & Hne & _)]; [discriminate|contradiction].
  - rewrite (check_with_address lib c subnets (String d ip) req Hip) by discriminate.
    split.
    + intros H. right. exists (String d ip). split; [reflexivity|].
      split; [discriminate|].
      destruct (ip_address lib (String d ip)) as [addr|]; [|exact I].
      destruct (existsb _ _) eqn:E; [|discriminate].
      apply in_some_subnet in E. destruct E as (s & net & Hin & Hnet & Hmem).
      exists s, net. split; [now apply allowed_subnets_listed|now split].
    + intros [H|(ip' & [= <-] & _ & H)]; [discriminate|].
      destruct (ip_address lib (String d ip)) as [addr|]; [|reflexivity].
      destruct H as (s & net & Hs & Hnet & Hmem).
      assert (E : existsb (in_subnet lib addr) (allowed_subnets_of (String c subnets))
                  = true).
      { apply in_some_subnet. exists s, net.
        split; [now apply allowed_subnets_listed|now split]. }
      now rewrite E.
  - unfold check_subnet_access. rewrite Hip. split; [discriminate|].
    intros [H|(ip & [=] & _)]. discriminate.
Qed.

(** X13: the loopback network is never locked out.  Whatever the setting,
    a client whose address the library finds in [127.0.0.1/8] and in
    [127.0.0.0/8], the two spellings of the loopback network, is let in. *)
Theorem loopback_is_never_locked_out (lib : IpLibrary) (subnets_only : option string)
    (req : Request) (client_ip : string) (addr : Address lib) :
  client_ip_of req = Some client_ip ->
  client_ip <> "" ->
  ip_address lib client_ip = Some addr ->
  (forall s, s = "127.0.0.1/8" \/ s = "127.0.0.0/8" ->
             exists net, ip_network lib s = Some net /\ address_in lib addr net = true) ->
  check_subnet_access lib subnets_only req = Allowed.
Proof.
  intros Hip Hne Haddr Hloop.
  destruct subnets_only as [[|c subnets]|]; [reflexivity| |reflexivity].
  rewrite (check_with_address lib c subnets client_ip req Hip Hne), Haddr.
  destruct (loopback_listed (String c subnets)) as (s & Hs & Hin).
  destruct (Hloop s Hs) as (net & Hnet & Hmem).
  assert (E : existsb (in_subnet lib addr) (allowed_subnets_of (String c subnets)) = true).
  { apply in_some_subnet. now exists s, net. }
  now rewrite E.
Qed.

Lemma loopback_is_never_locked_out_witness :
  check_subnet_access Ipv4.library (Some "10.0.0.0/8, 192.168.1.0/24")
    {| x_forwarded_for := None; remote_addr := Some "127.0.0.1" |} = Allowed /\
  check_subnet_access Ipv4.library (Some "10.0.0.0/8, 192.168.1.0/24")
    {| x_forwarded_for := None; remote_addr := Some "172.16.0.9" |}
  = Forbidden "172.16.0.9" "10.0.0.0/8, 192.168.1.0/24, 127.0.0.1/8".
Proof.
  split; [|reflexivity].
  apply (loopback_is_never_locked_out Ipv4.library _ _ "127.0.0.1" 2130706433%N).
  - reflexivity.
  - discriminate.
  - reflexivity.
  - intros s [->| ->]; exists (127%N, 8%N); split; reflexivity.
Defined.

(** X14: the check fails open, and the header decides.  When a restriction
    is set and the request has an [X-Forwarded-For] header, the remote
    address plays no part; and when the client address read from the
    header (its first entry if it has a comma, the header as it is
    otherwise) is not empty and is not an IP address, the request is let
    in. *)
Theorem unreadable_forwarded_address_is_let_in (lib : IpLibrary)
    (subnets_only : option string) (header : string) (remote : option string) :
  let client_ip :=
    if contains "," header then strip (first_segment "," header) else header in
  client_ip <> "" ->
  ip_address lib client_ip = None ->
  check_subnet_access lib subnets_only
    {| x_forwarded_for := Some header; remote_addr := remote |} = Allowed.
Proof.
  intros client_ip Hne Hbad.
  destruct subnets_only as [[|c subnets]|]; [reflexivity| |reflexivity].
  rewrite (check_with_address lib c subnets client_ip); [now rewrite Hbad| |assumption].
  unfold client_ip_of. cbn [x_forwarded_for]. subst client_ip.
  destruct header as [|h header]; [reflexivity|].
  cbn [String.eqb negb andb].
  now destruct (contains "," (String h header)).
Qed.

Lemma unreadable_forwarded_address_is_let_in_witness :
  check_subnet_access Ipv4.library (Some "10.0.0.0/8")
    {| x_forwarded_for := Some "unknown, 172.16.0.9";
       remote_addr := Some "172.16.0.9" |} = Allowed /\
  check_subnet_access Ipv4.library (Some "10.0.0.0/8")
    {| x_forwarded_for := Some " 172.16.0.9";
       remote_addr := Some "172.16.0.9" |} = Allowed /\
  check_subnet_access Ipv4.library (Some "10.0.0.0/8")
    {| x_forwarded_for := Some "172.16.0.9";
       remote_addr := Some "172.16.0.9" |}
  = Forbidden "172.16.0.9" "10.0.0.0/8, 127.0.0.1/8".
Proof.
  split; [|split; [|reflexivity]].
  - apply (unreadable_forwarded_address_is_let_in Ipv4.library);
      [discriminate|reflexivity].
  - apply (unreadable_forwarded_address_is_let_in Ipv4.library);
      [discriminate|reflexivity].
Defined.

(** X15: when the restriction is off.  Every request is let in exactly when
    the setting that [get_config] finds is missing or empty: the variable
    of this dashboard, [SUBNETS_ONLY_<SCRIPT_NAME>], if it is set, even to
    the empty string and even if [SUBNETS_ONLY] lists subnets; the
    variable [SUBNETS_ONLY] otherwise. *)
Theorem restriction_is_off_iff (lib : IpLibrary) (SCRIPT_NAME : string)
    (environ : Dict.t string) :
  (forall req,
      check_subnet_access lib (SUBNETS_ONLY SCRIPT_NAME environ) req = Allowed)
  <->
  match Dict.get environ ("SUBNETS_ONLY_" ++ SCRIPT_NAME) with
  | Some specific => specific = ""
  | None =>
      match Dict.get environ "SUBNETS_ONLY" with
      | Some global => global = ""
      | None => True
      end
  end.
Proof.
  assert (Hoff : forall setting,
             (forall req, check_subnet_access lib (Some setting) req = Allowed)
             <-> setting = "").
  { intros [|c setting]; split; try reflexivity; try discriminate.
    intros H.
    specialize (H {| x_forwarded_for := None; remote_addr := None |}).
    discriminate. }
  unfold SUBNETS_ONLY, get_config, Dict.mem.
  change ("SUBNETS_ONLY" ++ "_" ++ SCRIPT_NAME) with ("SUBNETS_ONLY_" ++ SCRIPT_NAME).
  destruct (Dict.get environ ("SUBNETS_ONLY_" ++ SCRIPT_NAME)) as [specific|];
    [apply Hoff|].
  destruct (Dict.get environ "SUBNETS_ONLY") as [global|]; [apply Hoff|].
  now split.
Qed.

End AccessFacts.

(* ================================================================== *)
(** ** The route [/api/usage] *)

Module UsageApi.
#[local] Set Warnings "-inexact-float".

(** [data['model_display_names']] as [usage_api] sets it: the dictionaries
    with an ['error'] have no ['model_costs']. *)
Definition model_display_names_of (data : Query.FetchResult) : Dict.t string :=
  match data with
  | Query.Fetched (Aggregation.Data s) =>
      match Aggregation.Summary.model_costs s with
      | [] => Dict.empty
      | model_costs =>
          Dict.of_items
            (map (fun model => (model, ModelId.get_model_display_name model))
                 (Dict.keys model_costs))
      end
  | _ => Dict.empty
  end.

(** [usage_api()] for a request with [days], past the access check: the
    dictionary of [get_bedrock_usage] and the names put into it *)
Definition usage_api (svc : Query.Service) (days : Z) (now : float)
    (w : Query.World) : (Query.FetchResult * Dict.t string) * Query.World :=
  let '(data, w') := Query.get_bedrock_usage svc days now w in
  ((data, model_display_names_of data), w').

End UsageApi.

(* ================================================================== *)
(** ** What the two routes show of one result *)

Module ApiFacts.
Import Aggregation.
#[local] Set Warnings "-inexact-float".
#[local] Open Scope float_scope.

(** *** Results come from the aggregation of some rows *)

Lemma poll_loop_fetched (svc : Query.Service) (qid remaining elapsed : nat)
    (r : result) :
  Query.poll_loop svc qid remaining elapsed = Query.Fetched r ->
  exists rows, _process_logs_insights_results rows = Some r.
Proof.
  revert elapsed. induction remaining as [|remaining IH]; intros elapsed; simpl.
  - discriminate.
  - destruct (Query.poll_once svc qid elapsed) as [rows|why|].
    + unfold Query.conclude.
      destruct (_process_logs_insights_results rows) as [r'|] eqn:E; [|discriminate].
      intros [= <-]. now exists rows.
    + discriminate.
    + apply IH.
Qed.

Lemma get_bedrock_usage_fetched (svc : Query.Service) (days : Z) (now : float)
    (w : Query.World) (r : result) :
  fst (Query.get_bedrock_usage svc days now w) = Query.Fetched r ->
  exists rows, _process_logs_insights_results rows = Some r.
Proof.
  unfold Query.get_bedrock_usage.
  destruct (Query.window days now); [|discriminate].
  destruct (Query.start_query svc days now w) as [[|message]|[qid w']]; cbn [fst];
    try discriminate.
  apply poll_loop_fetched.
Qed.

(** *** Dictionaries filled key by key *)

Lemma keys_fold_set {V : Type} (f : string -> V) (l : list string) (d : Dict.t V) :
  NoDup l ->
  (forall x, In x l -> ~ In x (Dict.keys d)) ->
  Dict.keys (fold_left (fun d x => Dict.set d x (f x)) l d) = (Dict.keys d ++ l)%list.
Proof.
  revert d. induction l as [|x l IH]; intros d Hnd Hnew; simpl.
  - now rewrite app_nil_r.
  - inversion Hnd as [|? ? Hx Hl]; subst.
    assert (Hmem : Dict.mem x d = false).
    { destruct (Dict.mem x d) eqn:E; [|reflexivity].
      apply Dict.mem_keys_iff in E. exfalso. apply (Hnew x); [now left|assumption]. }
    rewrite IH; [| assumption |].
    + rewrite Dict.keys_set, Hmem, <- app_assoc. reflexivity.
    + intros y Hy. rewrite Dict.keys_set, Hmem. intros Hin.
      apply in_app_or in Hin. destruct Hin as [Hin|[<-|[]]].
      * apply (Hnew y); [now right|assumption].
      * contradiction.
Qed.




(** *** The models of the cost map are models of the usage *)






(** The names that [usage_api] gives to the models of a result *)
Lemma names_of_data (s : Summary.t) :
  NoDup (Dict.keys (Summary.model_costs s)) ->
  Dict.keys (UsageApi.model_display_names_of (Query.Fetched (Data s)))
  = Dict.keys (Summary.model_costs s) /\
  forall model,
    In model (Dict.keys (Summary.model_costs s)) ->
    Dict.get (UsageApi.model_display_names_of (Query.Fetched (Data s))) model
    = Some (ModelId.get_model_display_name model).
Proof.
  intros Hnd. unfold UsageApi.model_display_names_of.
  destruct (Summary.model_costs s) as [|kv d] eqn:E; [split; [reflexivity|easy]|].
  rewrite <- E in *. unfold Dict.of_items.
  rewrite CostMatrixFacts.of_items_map. split.
  - rewrite keys_fold_set; [reflexivity|assumption|easy].
  - intros model Hin. now apply CostMatrix.get_fold_set.
Qed.

(** X16: every model of the usage response has its display name.  When
    the fetch gives a result, [model_display_names] has the models of
    [model_usage], in the same order, each with the name that
    [get_model_display_name] gives it; when the fetch gives an error,
    [model_display_names] is empty. *)
Theorem usage_api_names_every_model (svc : Query.Service) (days : Z) (now : float)
    (w : Query.World) :
  let data := fst (fst (UsageApi.usage_api svc days now w)) in
  let names := snd (fst (UsageApi.usage_api svc days now w)) in
  data = fst (Query.get_bedrock_usage svc days now w) /\
  match data with
  | Query.Fetched (Data s) =>
      Dict.keys names = Dict.keys (Summary.model_usage s) /\
      forall model,
        In model (Dict.keys (Summary.model_usage s)) ->
        Dict.get names model = Some (ModelId.get_model_display_name model)
  | _ => names = Dict.empty
  end.
Proof.
  unfold UsageApi.usage_api.
  destruct (Query.get_bedrock_usage svc days now w) as [data w'] eqn:Hrun.
  cbn [fst snd]. split; [reflexivity|].
  destruct data as [|why|[|s]]; try reflexivity.
  assert (Hdata : fst (Query.get_bedrock_usage svc days now w) = Query.Fetched (Data s))
    by now rewrite Hrun.
  destruct (get_bedrock_usage_fetched _ _ _ _ _ Hdata) as (rows & Hrows).
  destruct (AggregationFacts.result_data rows s Hrows)
    as (acc & _ & Hal & _ & _ & _ & _ & _ & Husage & _ & Hcosts & _).
  assert (Hkeys : Dict.keys (Summary.model_costs s) = Dict.keys (Summary.model_usage s)).
  { rewrite Hcosts, Husage, !AggregationFacts.keys_filter_keys.
    now rewrite (AggregationFacts.al_model_costs acc Hal). }
  assert (Hnd : NoDup (Dict.keys (Summary.model_costs s))).
  { rewrite Hkeys, Husage, AggregationFacts.keys_filter_keys.
    apply NoDup_filter. exact (AggregationFacts.al_models_once acc Hal). }
  destruct (names_of_data s Hnd) as [Hk Hget].
  rewrite <- Hkeys. now split.
Qed.



End ApiFacts.
